(** * libkernelflinger/storage.c: boot-device cache and pattern-fill writer

    A shallow embedding of [storage.c].  The four file-scope statics
    ([cur_storage], [boot_device], [boot_device_type], [initialized]) form
    the record [state], threaded explicitly through every operation.  The
    firmware services the file calls ([LocateHandleBuffer],
    [DevicePathFromHandle], [get_pci_device_path]) and the descriptor table
    [supported_storage] are fields of the record [firmware].

    Conventions.
    - [UINT8], [UINT64], [UINTN] values are [Z]; 64-bit wrap-around is
      written out with [wrap64] ([UINTN] is 64 bits, the x86_64 build).
    - A pointer that may be [NULL] is an [option].
    - [debug], [error] and [efi_perror] only write to the log and are left
      out, together with the [prev]/[progress] counters of [fill_with] that
      feed nothing but [debug]; [fill_with_log] is [fill_with] with these
      counters and its log messages.
    - [FreePool] has no observable effect on the modelled state.
    - [fill_zero] only allocates a buffer around a call of [fill_with]; it
      is not embedded. *)

From Stdlib Require Import ZArith List Bool Lia String.
Import ListNotations.
Local Open Scope Z_scope.

(** ** EFI scalar types and status codes *)

Definition EFI_STATUS := Z.
Definition EFI_HANDLE := Z.
Definition EFI_DEVICE_PATH := Z.
Definition EFI_LBA := Z.
Definition logical_unit_t := Z.

Definition wrap64 (x : Z) : Z := x mod 2 ^ 64.

Definition EFIERR (a : Z) : EFI_STATUS := Z.lor (2 ^ 63) a.
Definition EFI_SUCCESS : EFI_STATUS := 0.
Definition EFI_INVALID_PARAMETER : EFI_STATUS := EFIERR 2.
Definition EFI_UNSUPPORTED : EFI_STATUS := EFIERR 3.
Definition EFI_NOT_FOUND : EFI_STATUS := EFIERR 14.

(** [EFI_ERROR(a)] is [((INTN) a) < 0]: the top bit of the status. *)
Definition EFI_ERROR (a : EFI_STATUS) : bool := Z.testbit a 63.

(** ** Block devices *)

(** One [WriteBlocks] call as the device sees it. *)
Record write_call := {
  w_media : Z;
  w_lba : EFI_LBA;
  w_bytes : Z;
  w_buffer : Z
}.

(** [EFI_BLOCK_IO] with the fields of [Media] that the file reads.  The
    status of a write may depend on every call the device received before. *)
Record EFI_BLOCK_IO := {
  MediaId : Z;
  BlockSize : Z;
  IoAlign : Z;
  WriteBlocks : list write_call -> write_call -> EFI_STATUS
}.

(** ** Storage descriptors *)

Inductive storage_type :=
| STORAGE_EMMC
| STORAGE_UFS
| STORAGE_SDCARD
| STORAGE_SATA
| STORAGE_ALL.

Definition storage_type_ord (t : storage_type) : Z :=
  match t with
  | STORAGE_EMMC => 0
  | STORAGE_UFS => 1
  | STORAGE_SDCARD => 2
  | STORAGE_SATA => 3
  | STORAGE_ALL => 4
  end.

Definition storage_type_eqb (a b : storage_type) : bool :=
  storage_type_ord a =? storage_type_ord b.

Record storage := {
  name : string;
  probe : EFI_DEVICE_PATH -> bool;
  check_logical_unit : EFI_DEVICE_PATH -> logical_unit_t -> EFI_STATUS;
  erase_blocks : EFI_HANDLE -> EFI_BLOCK_IO -> EFI_LBA -> EFI_LBA -> EFI_STATUS
}.

(** ** PCI device-path nodes *)

Record PCI_DEVICE_PATH := {
  Header_Type : Z;
  Header_SubType : Z;
  Function : Z;
  Device : Z
}.

Definition same_address (a b : PCI_DEVICE_PATH) : bool :=
  (Function a =? Function b) && (Device a =? Device b).

(** ** Firmware environment *)

(** [LocateHandleBuffer n] is the answer to the [n]-th enumeration request
    (counted from 0): its status and the handle buffer. *)
Record firmware := {
  LocateHandleBuffer : nat -> EFI_STATUS * list EFI_HANDLE;
  DevicePathFromHandle : EFI_HANDLE -> option EFI_DEVICE_PATH;
  get_pci_device_path : EFI_DEVICE_PATH -> option PCI_DEVICE_PATH;
  supported_storage : storage_type -> option storage
}.

(** The extractor only returns PCI nodes of a device path, whose header
    type is never 0 (0 is what the file uses for "no boot device"). *)
Definition pci_nodes_typed (fw : firmware) : Prop :=
  forall p pci, get_pci_device_path fw p = Some pci -> Header_Type pci <> 0.

(** ** The file-scope state *)

Record state := {
  cur_storage : option storage;
  boot_device : PCI_DEVICE_PATH;
  boot_device_type : storage_type;
  initialized : bool;
  locate_calls : nat  (* ghost: LocateHandleBuffer requests so far *)
}.

Definition initial_state : state :=
  {| cur_storage := None;
     boot_device := {| Header_Type := 0; Header_SubType := 0;
                       Function := 255; Device := 255 |};
     boot_device_type := STORAGE_EMMC;
     initialized := false;
     locate_calls := 0 |}.

Definition upd_cur_storage (v : option storage) (s : state) : state :=
  {| cur_storage := v; boot_device := boot_device s;
     boot_device_type := boot_device_type s;
     initialized := initialized s; locate_calls := locate_calls s |}.

Definition upd_boot_device (v : PCI_DEVICE_PATH) (s : state) : state :=
  {| cur_storage := cur_storage s; boot_device := v;
     boot_device_type := boot_device_type s;
     initialized := initialized s; locate_calls := locate_calls s |}.

Definition upd_boot_device_type (v : storage_type) (s : state) : state :=
  {| cur_storage := cur_storage s; boot_device := boot_device s;
     boot_device_type := v;
     initialized := initialized s; locate_calls := locate_calls s |}.

Definition upd_initialized (v : bool) (s : state) : state :=
  {| cur_storage := cur_storage s; boot_device := boot_device s;
     boot_device_type := boot_device_type s;
     initialized := v; locate_calls := locate_calls s |}.

Definition count_locate (s : state) : state :=
  {| cur_storage := cur_storage s; boot_device := boot_device s;
     boot_device_type := boot_device_type s;
     initialized := initialized s; locate_calls := S (locate_calls s) |}.

(** [boot_device.Header.Type = 0;] *)
Definition clear_header_type (s : state) : state :=
  upd_boot_device
    {| Header_Type := 0; Header_SubType := Header_SubType (boot_device s);
       Function := Function (boot_device s);
       Device := Device (boot_device s) |} s.

(** ** is_boot_device *)

Definition is_boot_device (fw : firmware) (s : state) (p : EFI_DEVICE_PATH)
  : bool :=
  if Header_Type (boot_device s) =? 0 then false
  else
    match get_pci_device_path fw p with
    | None => false
    | Some pci =>
        (Function pci =? Function (boot_device s))
        && (Device pci =? Device (boot_device s))
    end.

(** ** identify_storage *)

(** The slots visited by [for (st = STORAGE_EMMC; st < STORAGE_ALL; st++)]. *)
Definition storage_slots : list storage_type :=
  [STORAGE_EMMC; STORAGE_UFS; STORAGE_SDCARD; STORAGE_SATA].

Fixpoint identify_storage_from (fw : firmware) (device_path : EFI_DEVICE_PATH)
    (filter : storage_type) (sts : list storage_type)
  : option (storage * storage_type) :=
  match sts with
  | [] => None
  | st :: rest =>
      let next := identify_storage_from fw device_path filter rest in
      if storage_type_eqb filter st || storage_type_eqb filter STORAGE_ALL
      then match supported_storage fw st with
           | Some d => if probe d device_path then Some (d, st) else next
           | None => next
           end
      else next
  end.

(** The status together with the out-parameters [*storage] and [*type],
    which are written only on success. *)
Definition identify_storage (fw : firmware) (device_path : EFI_DEVICE_PATH)
    (filter : storage_type) : EFI_STATUS * option (storage * storage_type) :=
  match identify_storage_from fw device_path filter storage_slots with
  | Some r => (EFI_SUCCESS, Some r)
  | None => (EFI_UNSUPPORTED, None)
  end.

(** ** identify_boot_device *)

(** Outcome of one pass of the loop body: go on with the next handle, or
    leave the function through the [return EFI_UNSUPPORTED] of line 136. *)
Inductive scan :=
| Continue (s : state)
| Abort (s : state).

Definition scan_handle (fw : firmware) (filter : storage_type) (s : state)
    (h : EFI_HANDLE) : scan :=
  match DevicePathFromHandle fw h with
  | None => Continue s
  | Some device_path =>
      match get_pci_device_path fw device_path with
      | None => Continue s
      | Some pci =>
          if same_address (boot_device s) pci then Continue s
          else
            let '(ret, out) := identify_storage fw device_path filter in
            if EFI_ERROR ret then Continue s
            else
              match out with
              | None => Continue s  (* out-parameters unwritten: only with
                                       an error status *)
              | Some (d, type) =>
                  if (Header_Type (boot_device s) =? 0)
                     || (storage_type_ord type
                           <? storage_type_ord (boot_device_type s))
                  then Continue (upd_cur_storage (Some d)
                                   (upd_boot_device_type type
                                      (upd_boot_device pci s)))
                  else if storage_type_eqb (boot_device_type s) type
                  then Abort (clear_header_type (upd_cur_storage None s))
                  else Continue s
              end
      end
  end.

Fixpoint scan_handles (fw : firmware) (filter : storage_type) (s : state)
    (handles : list EFI_HANDLE) : scan :=
  match handles with
  | [] => Continue s
  | h :: rest =>
      match scan_handle fw filter s h with
      | Continue s' => scan_handles fw filter s' rest
      | Abort s' => Abort s'
      end
  end.

Definition identify_boot_device (fw : firmware) (filter : storage_type)
    (s : state) : EFI_STATUS * state :=
  let s1 := upd_cur_storage None s in
  let '(ret, handles) := LocateHandleBuffer fw (locate_calls s1) in
  let s2 := count_locate s1 in
  if EFI_ERROR ret then (ret, s2)
  else
    match scan_handles fw filter (clear_header_type s2) handles with
    | Abort s3 => (EFI_UNSUPPORTED, s3)
    | Continue s3 =>
        match cur_storage s3 with
        | None => (EFI_UNSUPPORTED, s3)
        | Some _ => (EFI_SUCCESS, s3)
        end
    end.

(** ** valid_storage and the operations built on it *)

Definition valid_storage (fw : firmware) (s : state) : bool * state :=
  if negb (initialized s) then
    let '(ret, s') := identify_boot_device fw STORAGE_ALL
                        (upd_initialized true s) in
    (negb (EFI_ERROR ret), s')
  else
    (negb (Header_Type (boot_device s) =? 0)
     && match cur_storage s with Some _ => true | None => false end, s).

Definition storage_check_logical_unit (fw : firmware) (p : EFI_DEVICE_PATH)
    (log_unit : logical_unit_t) (s : state) : EFI_STATUS * state :=
  let '(ok, s') := valid_storage fw s in
  if negb ok then (EFI_UNSUPPORTED, s')
  else if negb (is_boot_device fw s' p) then (EFI_UNSUPPORTED, s')
  else
    match cur_storage s' with
    | Some d => (check_logical_unit d p log_unit, s')
    | None => (EFI_UNSUPPORTED, s')  (* NULL dereference: never reached,
                                        see valid_storage_descriptor *)
    end.

Definition storage_erase_blocks (fw : firmware) (handle : EFI_HANDLE)
    (bio : EFI_BLOCK_IO) (start end_ : EFI_LBA) (s : state)
  : EFI_STATUS * state :=
  let '(ok, s') := valid_storage fw s in
  if negb ok then (EFI_UNSUPPORTED, s')
  else
    match cur_storage s' with
    | Some d => (erase_blocks d handle bio start end_, s')
    | None => (EFI_UNSUPPORTED, s')  (* NULL dereference: never reached *)
    end.

(** ** storage_set_boot_device *)

Definition storage_set_boot_device (fw : firmware) (device : EFI_HANDLE)
    (s : state) : EFI_STATUS * state :=
  match DevicePathFromHandle fw device with
  | None => (EFI_UNSUPPORTED, s)
  | Some device_path =>
      match get_pci_device_path fw device_path with
      | None => (EFI_UNSUPPORTED, s)
      | Some pci =>
          let '(ret, out) := identify_storage fw device_path STORAGE_ALL in
          let s1 := match out with
                    | Some (d, type) =>
                        upd_boot_device_type type (upd_cur_storage (Some d) s)
                    | None => s
                    end in
          if EFI_ERROR ret then (ret, s1)
          else (EFI_SUCCESS, upd_boot_device pci (upd_initialized true s1))
      end
  end.

(** ** get_boot_device *)

Definition get_boot_device (fw : firmware) (s : state)
  : option PCI_DEVICE_PATH * state :=
  let s' := if negb (initialized s)
            then snd (identify_boot_device fw STORAGE_ALL s)
            else s in
  (if Header_Type (boot_device s') =? 0 then None else Some (boot_device s'),
   s').

(** ** fill_with *)

(** The body of the [for] loop, entered with the current [lba] and the
    calls the device has received so far.  The loop need not end, so it
    runs on [fuel]: the status is [None] when the fuel is spent before the
    loop is left; the calls issued up to that point are returned in both
    cases.  All [EFI_LBA]/[UINT64] arithmetic wraps at 2^64. *)
Fixpoint fill_loop (fuel : nat) (bio : EFI_BLOCK_IO) (end_ : EFI_LBA)
    (pattern : Z) (pattern_blocks : Z) (lba : EFI_LBA)
    (calls : list write_call) : option EFI_STATUS * list write_call :=
  match fuel with
  | O => (None, calls)
  | S fuel' =>
      if lba <=? end_ then
        let size :=
          if wrap64 (lba + pattern_blocks) >? wrap64 (end_ + 1)
          then wrap64 (wrap64 (end_ - lba) + 1)
          else pattern_blocks in
        let c := {| w_media := MediaId bio; w_lba := lba;
                    w_bytes := wrap64 (BlockSize bio * size);
                    w_buffer := pattern |} in
        let ret := WriteBlocks bio calls c in
        if EFI_ERROR ret then (Some ret, calls ++ [c])
        else fill_loop fuel' bio end_ pattern pattern_blocks
               (wrap64 (lba + pattern_blocks)) (calls ++ [c])
      else (Some EFI_SUCCESS, calls)
  end.

Definition fill_with (fuel : nat) (bio : EFI_BLOCK_IO) (start end_ : EFI_LBA)
    (pattern : Z) (pattern_blocks : Z) (calls : list write_call)
  : option EFI_STATUS * list write_call :=
  if end_ <=? start then (Some EFI_INVALID_PARAMETER, calls)
  else fill_loop fuel bio end_ pattern pattern_blocks start calls.

(** ** Vocabulary of the statements *)

(** What the loop body of [identify_boot_device] learns about a handle,
    before the duplicate-address test: its PCI node and the descriptor and
    type [identify_storage] reports for its device path. *)
Definition recognise (fw : firmware) (filter : storage_type) (h : EFI_HANDLE)
  : option (PCI_DEVICE_PATH * storage * storage_type) :=
  match DevicePathFromHandle fw h with
  | None => None
  | Some device_path =>
      match get_pci_device_path fw device_path with
      | None => None
      | Some pci =>
          match identify_storage fw device_path filter with
          | (ret, Some (d, type)) =>
              if EFI_ERROR ret then None else Some (pci, d, type)
          | (_, None) => None
          end
      end
  end.

(** The state a pass of the loop ends in, either way. *)
Definition scan_state (r : scan) : state :=
  match r with Continue s => s | Abort s => s end.

(** The cache holds an address: [boot_device.Header.Type] is not 0. *)
Definition address_set (s : state) : bool :=
  negb (Header_Type (boot_device s) =? 0).

Definition descriptor_set (s : state) : bool :=
  match cur_storage s with Some _ => true | None => false end.

(** The descriptor is set exactly when the address is. *)
Definition coherent (s : state) : Prop := descriptor_set s = address_set s.

(** "Valid" as the design document has it. *)
Definition cache_valid (s : state) : bool :=
  initialized s && address_set s && descriptor_set s.

(** The bus address of [p] equals the cached one on both fields. *)
Definition path_address_matches (fw : firmware) (s : state)
    (p : EFI_DEVICE_PATH) : bool :=
  match get_pci_device_path fw p with
  | None => false
  | Some pci =>
      (Function pci =? Function (boot_device s))
      && (Device pci =? Device (boot_device s))
  end.

(** Vocabulary of the scan invariants, relative to a technology [T] and the
    PCI node [pci1] of a controller recognised as [T]. *)






(** The writes a fill of [[start, end_]] in chunks of [pattern_blocks]
    is meant to issue: chunk [k] starts at block [start + k * pattern_blocks]
    and covers [pattern_blocks] blocks, or the blocks that remain up to
    [end_] if these are fewer. *)
Definition chunks_needed (start end_ pattern_blocks : Z) : Z :=
  (end_ - start + 1 + (pattern_blocks - 1)) / pattern_blocks.

Definition chunk_lba (start pattern_blocks k : Z) : Z :=
  start + k * pattern_blocks.

Definition chunk_size (start end_ pattern_blocks k : Z) : Z :=
  Z.min pattern_blocks (end_ - chunk_lba start pattern_blocks k + 1).

Definition chunk_call (bio : EFI_BLOCK_IO) (pattern : Z)
    (start end_ pattern_blocks : Z) (k : nat) : write_call :=
  {| w_media := MediaId bio;
     w_lba := chunk_lba start pattern_blocks (Z.of_nat k);
     w_bytes := wrap64 (BlockSize bio
                        * chunk_size start end_ pattern_blocks (Z.of_nat k));
     w_buffer := pattern |}.

Definition tiling (bio : EFI_BLOCK_IO) (pattern : Z)
    (start end_ pattern_blocks : Z) : list write_call :=
  map (chunk_call bio pattern start end_ pattern_blocks)
    (seq 0 (Z.to_nat (chunks_needed start end_ pattern_blocks))).

(** Every write the device is asked for succeeds. *)
Definition writes_succeed (bio : EFI_BLOCK_IO) : Prop :=
  forall calls c, EFI_ERROR (WriteBlocks bio calls c) = false.

(** The exposed operations that touch the cache. *)
Inductive call :=
| Call_identify_boot_device (filter : storage_type)
| Call_get_boot_device
| Call_set_boot_device (device : EFI_HANDLE)
| Call_check_logical_unit (p : EFI_DEVICE_PATH) (log_unit : logical_unit_t)
| Call_erase_blocks (handle : EFI_HANDLE) (bio : EFI_BLOCK_IO)
    (start end_ : EFI_LBA).

Definition run_call (fw : firmware) (c : call) (s : state) : state :=
  match c with
  | Call_identify_boot_device filter => snd (identify_boot_device fw filter s)
  | Call_get_boot_device => snd (get_boot_device fw s)
  | Call_set_boot_device device => snd (storage_set_boot_device fw device s)
  | Call_check_logical_unit p u => snd (storage_check_logical_unit fw p u s)
  | Call_erase_blocks h bio a b => snd (storage_erase_blocks fw h bio a b s)
  end.

(** Whether call [c], made in state [s], identifies a boot device: a scan
    it runs (directly or lazily) succeeds, or the override succeeds. *)
Definition identifies (fw : firmware) (c : call) (s : state) : bool :=
  match c with
  | Call_identify_boot_device filter =>
      negb (EFI_ERROR (fst (identify_boot_device fw filter s)))
  | Call_get_boot_device =>
      negb (initialized s)
      && negb (EFI_ERROR (fst (identify_boot_device fw STORAGE_ALL s)))
  | Call_set_boot_device device =>
      negb (EFI_ERROR (fst (storage_set_boot_device fw device s)))
  | Call_check_logical_unit _ _ | Call_erase_blocks _ _ _ _ =>
      negb (initialized s) && fst (valid_storage fw s)
  end.

Fixpoint run (fw : firmware) (cs : list call) (s : state) : state :=
  match cs with
  | [] => s
  | c :: rest => run fw rest (run_call fw c s)
  end.

Fixpoint never_identified (fw : firmware) (cs : list call) (s : state)
  : bool :=
  match cs with
  | [] => true
  | c :: rest =>
      negb (identifies fw c s) && never_identified fw rest (run_call fw c s)
  end.

(** ** Concrete platforms used to exercise the model *)

Module Sample.

(** A descriptor recognising exactly the device paths in [paths]. *)
Definition descriptor (nm : string) (paths : list EFI_DEVICE_PATH) : storage :=
  {| name := nm;
     probe := fun p => existsb (Z.eqb p) paths;
     check_logical_unit := fun _ _ => EFI_SUCCESS;
     erase_blocks := fun _ _ _ _ => EFI_SUCCESS |}.

Definition HARDWARE_DEVICE_PATH : Z := 1.
Definition HW_PCI_DP : Z := 1.

(** Handle [h] (1, 2, 3, ...) has device path [100 + h], whose PCI node is
    function 0 of device [27 + h]; handle 9 has a path without PCI node and
    handle 0 has no device path. *)
Definition platform (enum : nat -> EFI_STATUS * list EFI_HANDLE)
    (emmc ufs sdcard sata : list EFI_DEVICE_PATH) : firmware :=
  {| LocateHandleBuffer := enum;
     DevicePathFromHandle := fun h => if h =? 0 then None else Some (100 + h);
     get_pci_device_path := fun p =>
       if p =? 109 then None
       else Some {| Header_Type := HARDWARE_DEVICE_PATH;
                    Header_SubType := HW_PCI_DP;
                    Function := 0; Device := p - 100 + 27 |};
     supported_storage := fun st =>
       match st with
       | STORAGE_EMMC => Some (descriptor "eMMC" emmc)
       | STORAGE_UFS => Some (descriptor "UFS" ufs)
       | STORAGE_SDCARD => Some (descriptor "SDCARD" sdcard)
       | STORAGE_SATA => Some (descriptor "SATA" sata)
       | STORAGE_ALL => None
       end |}.

Definition always (hs : list EFI_HANDLE) : nat -> EFI_STATUS * list EFI_HANDLE :=
  fun _ => (EFI_SUCCESS, hs).

(** One eMMC controller behind handle 1. *)
Definition one_emmc : firmware := platform (always [1]) [101] [] [] [].

(** eMMC behind handle 1 and UFS behind handle 2. *)
Definition emmc_and_ufs : firmware :=
  platform (always [1; 2]) [101] [102] [] [].

(** The same two controllers, UFS enumerated first. *)
Definition ufs_then_emmc : firmware :=
  platform (always [2; 1]) [101] [102] [] [].

(** eMMC behind handle 1, UFS behind handles 2 and 3, in three orders. *)
Definition emmc_ufs_ufs : firmware :=
  platform (always [1; 2; 3]) [101] [102; 103] [] [].

(** Two UFS controllers and nothing else. *)
Definition two_ufs : firmware := platform (always [2; 3]) [] [102; 103] [] [].

(** One PCI controller that no descriptor recognises. *)
Definition no_storage : firmware := platform (always [1]) [] [] [] [].

(** One eMMC controller; the second enumeration request fails. *)
Definition emmc_then_failure : firmware :=
  platform (fun n => match n with
                     | O => (EFI_SUCCESS, [1])
                     | _ => (EFI_NOT_FOUND, [])
                     end) [101] [] [] [].

(** A range of 9 blocks that ends one block below the top of the 64-bit
    block numbers. *)
Definition top_start : EFI_LBA := 2 ^ 64 - 10.
Definition top_end : EFI_LBA := 2 ^ 64 - 2.

(** An eMMC controller exposed through handles 1 and 4 (two partitions of
    the same PCI function) and a UFS controller behind handle 2, which is
    enumerated first. *)
Definition partitions : firmware :=
  {| LocateHandleBuffer := always [2; 1; 4];
     DevicePathFromHandle := fun h => Some (100 + h);
     get_pci_device_path := fun p =>
       Some {| Header_Type := HARDWARE_DEVICE_PATH;
               Header_SubType := HW_PCI_DP;
               Function := 0;
               Device := if p =? 104 then 28 else p - 100 + 27 |};
     supported_storage := fun st =>
       match st with
       | STORAGE_EMMC => Some (descriptor "eMMC" [101; 104])
       | STORAGE_UFS => Some (descriptor "UFS" [102])
       | _ => None
       end |}.


(** A device with 512-byte blocks that accepts every write, and a range
    of 2^56 + 1 blocks filled in chunks of 2^55 blocks. *)
Definition wide_end : EFI_LBA := 2 ^ 56.
Definition wide_blocks : Z := 2 ^ 55.

(** A device that accepts every write. *)
Definition disk : EFI_BLOCK_IO :=
  {| MediaId := 7; BlockSize := 512; IoAlign := 0;
     WriteBlocks := fun _ _ => EFI_SUCCESS |}.

End Sample.

(** ** Further vocabulary *)

(** The test [filter == st || filter == STORAGE_ALL] of the registry loop. *)
Definition filter_matches (filter st : storage_type) : Prop :=
  filter = st \/ filter = STORAGE_ALL.

(** The calls that only query the cache. *)
Definition is_query (c : call) : bool :=
  match c with
  | Call_get_boot_device => true
  | Call_check_logical_unit _ _ => true
  | Call_erase_blocks _ _ _ _ => true
  | Call_identify_boot_device _ => false
  | Call_set_boot_device _ => false
  end.

(** Every write of [more], issued in this order to a device that had
    received [calls], succeeded. *)
Fixpoint all_written (bio : EFI_BLOCK_IO) (calls more : list write_call)
  : bool :=
  match more with
  | [] => true
  | c :: rest =>
      negb (EFI_ERROR (WriteBlocks bio calls c))
      && all_written bio (calls ++ [c]) rest
  end.

Definition total_bytes (calls : list write_call) : Z :=
  fold_right (fun c acc => w_bytes c + acc) 0 calls.

(** ** fill_with with its log *)

(** The three messages [fill_with] writes to the log. *)
Inductive log_msg :=
| Debug_fill (start end_ : EFI_LBA)        (* "Fill lba %d -> %d" *)
| Debug_completed (progress : Z)           (* "%d%% completed" *)
| Error_erase (ret : EFI_STATUS) (lba : EFI_LBA).
                                           (* "Failed to erase block %ld" *)

(** [#define percent5(x, max) (x) * 20 / (max) * 5] on [UINT64] operands. *)
Definition percent5 (x max : Z) : Z :=
  wrap64 (wrap64 (x * 20) / max * 5).

(** [fill_loop] together with the counters [prev] and [progress] and the
    log.  The third clause of the [for] statement runs after each pass:
    [lba += pattern_blocks, prev = progress,
     progress = percent5(lba - start, end - start)]. *)
Fixpoint fill_loop_log (fuel : nat) (bio : EFI_BLOCK_IO)
    (start end_ : EFI_LBA) (pattern : Z) (pattern_blocks : Z)
    (lba : EFI_LBA) (prev progress : Z)
    (calls : list write_call) (log : list log_msg)
  : option EFI_STATUS * list write_call * list log_msg :=
  match fuel with
  | O => (None, calls, log)
  | S fuel' =>
      if lba <=? end_ then
        let size :=
          if wrap64 (lba + pattern_blocks) >? wrap64 (end_ + 1)
          then wrap64 (wrap64 (end_ - lba) + 1)
          else pattern_blocks in
        let log1 := if progress =? prev then log
                    else log ++ [Debug_completed progress] in
        let c := {| w_media := MediaId bio; w_lba := lba;
                    w_bytes := wrap64 (BlockSize bio * size);
                    w_buffer := pattern |} in
        let ret := WriteBlocks bio calls c in
        if EFI_ERROR ret
        then (Some ret, calls ++ [c], log1 ++ [Error_erase ret lba])
        else
          let lba' := wrap64 (lba + pattern_blocks) in
          fill_loop_log fuel' bio start end_ pattern pattern_blocks
            lba' progress
            (percent5 (wrap64 (lba' - start)) (wrap64 (end_ - start)))
            (calls ++ [c]) log1
      else (Some EFI_SUCCESS, calls, log)
  end.

Definition fill_with_log (fuel : nat) (bio : EFI_BLOCK_IO)
    (start end_ : EFI_LBA) (pattern : Z) (pattern_blocks : Z)
    (calls : list write_call) (log : list log_msg)
  : option EFI_STATUS * list write_call * list log_msg :=
  let log0 := log ++ [Debug_fill start end_] in
  if end_ <=? start then (Some EFI_INVALID_PARAMETER, calls, log0)
  else fill_loop_log fuel bio start end_ pattern pattern_blocks
         start 0 0 calls log0.

(** The percentages reported in a log, in the order they were written. *)
Fixpoint reported (log : list log_msg) : list Z :=
  match log with
  | [] => []
  | Debug_completed p :: rest => p :: reported rest
  | _ :: rest => reported rest
  end.

(** [l] is strictly increasing and its first element exceeds [lo]. *)
Fixpoint increasing_from (lo : Z) (l : list Z) : Prop :=
  match l with
  | [] => True
  | v :: rest => lo < v /\ increasing_from v rest
  end.

(** ** Vocabulary added for the first scan and for exact byte counts *)


(** Chunk [k] of a fill as a write call, with the byte count of
    [chunk_size] blocks. *)
Definition chunk_write (bio : EFI_BLOCK_IO) (pattern : Z)
    (start end_ pattern_blocks : Z) (k : nat) : write_call :=
  {| w_media := MediaId bio;
     w_lba := chunk_lba start pattern_blocks (Z.of_nat k);
     w_bytes := BlockSize bio
                * chunk_size start end_ pattern_blocks (Z.of_nat k);
     w_buffer := pattern |}.

Definition block_tiling (bio : EFI_BLOCK_IO) (pattern : Z)
    (start end_ pattern_blocks : Z) : list write_call :=
  map (chunk_write bio pattern start end_ pattern_blocks)
    (seq 0 (Z.to_nat (chunks_needed start end_ pattern_blocks))).

(** * Properties *)

(** ** Status codes *)

Lemma identify_storage_cases fw device_path filter :
  (exists d type,
      identify_storage fw device_path filter = (EFI_SUCCESS, Some (d, type)))
  \/ identify_storage fw device_path filter = (EFI_UNSUPPORTED, None).
Proof.
  unfold identify_storage.
  destruct (identify_storage_from fw device_path filter storage_slots)
    as [[d type]|]; [left; exists d, type; reflexivity | right; reflexivity].
Qed.

(** ** What a scan leaves untouched *)

Lemma scan_handle_frame fw filter s h :
  initialized (scan_state (scan_handle fw filter s h)) = initialized s
  /\ locate_calls (scan_state (scan_handle fw filter s h)) = locate_calls s.
Proof.
  unfold scan_handle.
  destruct (DevicePathFromHandle fw h) as [dp|]; [|now split].
  destruct (get_pci_device_path fw dp) as [pci|]; [|now split].
  destruct (same_address (boot_device s) pci); [now split|].
  destruct (identify_storage fw dp filter) as [ret [[d type]|]];
    destruct (EFI_ERROR ret); try now split.
  destruct (_ || _); [now split|].
  destruct (storage_type_eqb _ _); now split.
Qed.

Lemma scan_handles_frame fw filter handles : forall s,
  initialized (scan_state (scan_handles fw filter s handles)) = initialized s
  /\ locate_calls (scan_state (scan_handles fw filter s handles))
     = locate_calls s.
Proof.
  induction handles as [|h rest IH]; intros s; simpl; [now split|].
  pose proof (scan_handle_frame fw filter s h) as [Hi Hl].
  destruct (scan_handle fw filter s h) as [s'|s']; simpl in *.
  - destruct (IH s') as [Hi' Hl']. split; congruence.
  - now split.
Qed.

Lemma identify_boot_device_frame fw filter s :
  initialized (snd (identify_boot_device fw filter s)) = initialized s
  /\ locate_calls (snd (identify_boot_device fw filter s))
     = S (locate_calls s).
Proof.
  unfold identify_boot_device. simpl.
  destruct (LocateHandleBuffer fw (locate_calls s)) as [ret handles].
  destruct (EFI_ERROR ret); [now split|].
  pose proof (scan_handles_frame fw filter handles
                (clear_header_type (count_locate (upd_cur_storage None s))))
    as [Hi Hl].
  destruct (scan_handles _ _ _ _) as [s3|s3]; simpl in *.
  - destruct (cur_storage s3); simpl; now split.
  - now split.
Qed.

(** [get_boot_device] never records that the lazy scan has run, and asks
    for a new enumeration whenever the flag is clear. *)
Lemma get_boot_device_frame fw s :
  initialized (snd (get_boot_device fw s)) = initialized s
  /\ locate_calls (snd (get_boot_device fw s))
     = (if initialized s then locate_calls s else S (locate_calls s)).
Proof.
  unfold get_boot_device. simpl.
  destruct (initialized s) eqn:Hi; simpl; [now split|].
  destruct (identify_boot_device_frame fw STORAGE_ALL s) as [H1 H2].
  split; congruence.
Qed.

(** ** C1: lazy initialisation through get_boot_device *)

(** C1 (fails on the code).  On a platform with one eMMC controller,
    [get_boot_device] called twice from the start-up state asks the
    firmware for a device enumeration both times: the first call leaves
    [initialized] FALSE, so the second scans again (and here even returns
    NULL where the first returned the controller's address).  Likewise a
    [get_boot_device] that follows a successful [identify_boot_device]
    enumerates again. *)
Theorem get_boot_device_scans_again :
  let r1 := get_boot_device Sample.one_emmc initial_state in
  let r2 := get_boot_device Sample.one_emmc (snd r1) in
  let i := identify_boot_device Sample.one_emmc STORAGE_ALL initial_state in
  let r3 := get_boot_device Sample.one_emmc (snd i) in
  (fst r1 = Some {| Header_Type := 1; Header_SubType := 1;
                    Function := 0; Device := 28 |}
   /\ initialized (snd r1) = false
   /\ locate_calls (snd r1) = 1%nat)
  /\ (locate_calls (snd r2) = 2%nat /\ fst r2 = None)
  /\ (fst i = EFI_SUCCESS /\ locate_calls (snd i) = 1%nat
      /\ locate_calls (snd r3) = 2%nat).
Proof. vm_compute. repeat split; reflexivity. Qed.

(** ** C3, C4: a second scan and the address of the first *)

(** C4 (fails on the code).  One eMMC controller, scanned twice.  The first
    scan selects it.  The second scan clears only [Header.Type]; the
    [Function]/[Device] pair of the first scan is still in [boot_device],
    the duplicate-address test of lines 116-118 matches it, the controller
    is passed over although nothing was accepted in this pass, and the scan
    ends with "No PCI storage found". *)
Theorem second_scan_skips_selected_device :
  let fw := Sample.one_emmc in
  let r1 := identify_boot_device fw STORAGE_ALL initial_state in
  let before_loop :=
    clear_header_type (count_locate (upd_cur_storage None (snd r1))) in
  let r2 := identify_boot_device fw STORAGE_ALL (snd r1) in
  (fst r1 = EFI_SUCCESS
   /\ boot_device (snd r1) = {| Header_Type := 1; Header_SubType := 1;
                                Function := 0; Device := 28 |})
  /\ LocateHandleBuffer fw 1%nat = (EFI_SUCCESS, [1])
  /\ (Header_Type (boot_device before_loop) = 0
      /\ scan_handle fw STORAGE_ALL before_loop 1 = Continue before_loop)
  /\ (fst r2 = EFI_UNSUPPORTED /\ descriptor_set (snd r2) = false).
Proof. vm_compute. repeat split; reflexivity. Qed.

(** C3 (fails on the code).  eMMC behind one controller and UFS behind
    another, scanned twice in the same order.  The first scan commits the
    eMMC controller; the second passes over it because of the address the
    first scan left behind and commits the UFS controller, the technology
    of lower priority. *)
Theorem second_scan_selects_lower_priority :
  let fw := Sample.emmc_and_ufs in
  let r1 := identify_boot_device fw STORAGE_ALL initial_state in
  let r2 := identify_boot_device fw STORAGE_ALL (snd r1) in
  (option_map snd (recognise fw STORAGE_ALL 1) = Some STORAGE_EMMC
   /\ option_map snd (recognise fw STORAGE_ALL 2) = Some STORAGE_UFS)
  /\ (fst r1 = EFI_SUCCESS
      /\ boot_device_type (snd r1) = STORAGE_EMMC
      /\ Device (boot_device (snd r1)) = 28
      /\ option_map name (cur_storage (snd r1)) = Some "eMMC"%string)
  /\ (fst r2 = EFI_SUCCESS
      /\ boot_device_type (snd r2) = STORAGE_UFS
      /\ Device (boot_device (snd r2)) = 29
      /\ option_map name (cur_storage (snd r2)) = Some "UFS"%string).
Proof. vm_compute. repeat split; reflexivity. Qed.

(** ** C5: descriptor and address after a failed enumeration *)

(** C5 (fails on the code).  A successful scan followed by a scan whose
    enumeration request fails: [cur_storage] was reset to NULL at the top
    of the function, the early return of line 103 is taken before
    [boot_device.Header.Type] is cleared, and the cache is left with an
    address but no descriptor. *)
Theorem failed_enumeration_keeps_address :
  let fw := Sample.emmc_then_failure in
  let r1 := identify_boot_device fw STORAGE_ALL initial_state in
  let r2 := identify_boot_device fw STORAGE_ALL (snd r1) in
  (fst r1 = EFI_SUCCESS
   /\ descriptor_set (snd r1) = true /\ address_set (snd r1) = true)
  /\ (fst r2 = EFI_NOT_FOUND
      /\ descriptor_set (snd r2) = false /\ address_set (snd r2) = true
      /\ boot_device (snd r2) = {| Header_Type := 1; Header_SubType := 1;
                                   Function := 0; Device := 28 |}).
Proof. vm_compute. repeat split; reflexivity. Qed.

(** Apart from that early return the two halves of the cache stay in
    step: every call whose enumeration request, if it makes one, is
    answered without error keeps [coherent]. *)
Lemma scan_handle_coherent fw filter s h :
  pci_nodes_typed fw -> coherent s ->
  coherent (scan_state (scan_handle fw filter s h)).
Proof.
  intros Htyped Hs. unfold scan_handle.
  destruct (DevicePathFromHandle fw h) as [dp|]; [|exact Hs].
  destruct (get_pci_device_path fw dp) as [pci|] eqn:Hpci; [|exact Hs].
  destruct (same_address (boot_device s) pci); [exact Hs|].
  destruct (identify_storage fw dp filter) as [ret [[d type]|]];
    destruct (EFI_ERROR ret); try exact Hs.
  destruct (_ || _).
  - unfold coherent, descriptor_set, address_set. simpl.
    apply Htyped in Hpci. apply Z.eqb_neq in Hpci. now rewrite Hpci.
  - destruct (storage_type_eqb _ _); [reflexivity | exact Hs].
Qed.

Lemma scan_handles_coherent fw filter handles : forall s,
  pci_nodes_typed fw -> coherent s ->
  coherent (scan_state (scan_handles fw filter s handles)).
Proof.
  induction handles as [|h rest IH]; intros s Htyped Hs; simpl; [exact Hs|].
  pose proof (scan_handle_coherent fw filter s h Htyped Hs) as Hh.
  destruct (scan_handle fw filter s h) as [s'|s']; simpl in Hh;
    [now apply IH | exact Hh].
Qed.

Lemma identify_boot_device_coherent fw filter s :
  pci_nodes_typed fw ->
  EFI_ERROR (fst (LocateHandleBuffer fw (locate_calls s))) = false ->
  coherent (snd (identify_boot_device fw filter s)).
Proof.
  intros Htyped Henum. unfold identify_boot_device. simpl.
  destruct (LocateHandleBuffer fw (locate_calls s)) as [ret handles].
  simpl in Henum. rewrite Henum.
  pose proof (scan_handles_coherent fw filter handles
                (clear_header_type (count_locate (upd_cur_storage None s)))
                Htyped eq_refl) as H.
  destruct (scan_handles _ _ _ _) as [s3|s3]; simpl in H; [|exact H].
  destruct (cur_storage s3); exact H.
Qed.

Lemma storage_set_boot_device_coherent fw device s :
  pci_nodes_typed fw -> coherent s ->
  coherent (snd (storage_set_boot_device fw device s)).
Proof.
  intros Htyped Hs. unfold storage_set_boot_device.
  destruct (DevicePathFromHandle fw device) as [dp|]; [|exact Hs].
  destruct (get_pci_device_path fw dp) as [pci|] eqn:Hpci; [|exact Hs].
  destruct (identify_storage_cases fw dp STORAGE_ALL)
    as [(d & type & ->)| ->]; simpl; [|exact Hs].
  unfold coherent, descriptor_set, address_set. simpl.
  apply Htyped in Hpci. apply Z.eqb_neq in Hpci. now rewrite Hpci.
Qed.

Lemma valid_storage_coherent fw s :
  pci_nodes_typed fw ->
  EFI_ERROR (fst (LocateHandleBuffer fw (locate_calls s))) = false ->
  coherent s -> coherent (snd (valid_storage fw s)).
Proof.
  intros Htyped Henum Hs. unfold valid_storage.
  destruct (initialized s); simpl; [exact Hs|].
  pose proof (identify_boot_device_coherent fw STORAGE_ALL
                (upd_initialized true s) Htyped Henum) as H.
  destruct (identify_boot_device _ _ _) as [ret s']. exact H.
Qed.

Lemma run_call_coherent fw c s :
  pci_nodes_typed fw ->
  EFI_ERROR (fst (LocateHandleBuffer fw (locate_calls s))) = false ->
  coherent s -> coherent (run_call fw c s).
Proof.
  intros Htyped Henum Hs.
  destruct c as [filter| |device|p u|h bio a b]; simpl.
  - now apply identify_boot_device_coherent.
  - destruct (initialized s); simpl;
      [exact Hs | now apply identify_boot_device_coherent].
  - now apply storage_set_boot_device_coherent.
  - unfold storage_check_logical_unit.
    pose proof (valid_storage_coherent fw s Htyped Henum Hs) as H.
    destruct (valid_storage fw s) as [ok s']. simpl in H.
    destruct (negb ok); [exact H|].
    destruct (negb (is_boot_device fw s' p)); [exact H|].
    destruct (cur_storage s'); exact H.
  - unfold storage_erase_blocks.
    pose proof (valid_storage_coherent fw s Htyped Henum Hs) as H.
    destruct (valid_storage fw s) as [ok s']. simpl in H.
    destruct (negb ok); [exact H|].
    destruct (cur_storage s'); exact H.
Qed.

(** ** C8: fill_with rejects an empty or reversed range *)

(** C8.  When [end <= start], [fill_with] returns EFI_INVALID_PARAMETER
    and the device has received no write: its list of calls is the one it
    had before, whatever the fuel, the pattern and the block count. *)
Theorem fill_with_invalid_range fuel bio start end_ pattern pattern_blocks
    calls :
  end_ <= start ->
  fill_with fuel bio start end_ pattern pattern_blocks calls
  = (Some EFI_INVALID_PARAMETER, calls).
Proof.
  intros H. unfold fill_with.
  destruct (Z.leb_spec end_ start) as [_|Hlt]; [reflexivity | lia].
Qed.

Lemma fill_with_invalid_range_witness :
  13 <= 13
  /\ fill_with 0 Sample.disk 13 13 0 2 []
     = (Some EFI_INVALID_PARAMETER, []).
Proof.
  split; [lia | apply (fill_with_invalid_range 0 Sample.disk 13 13 0 2 []); lia].
Defined.

(** ** The registry lookup *)

Lemma identify_storage_from_none fw device_path filter sts :
  (forall st d, In st sts -> supported_storage fw st = Some d ->
                probe d device_path = false) ->
  identify_storage_from fw device_path filter sts = None.
Proof.
  induction sts as [|st rest IH]; intros H; simpl; [reflexivity|].
  rewrite IH by (intros st' d' Hin; apply H; now right).
  destruct (_ || _); [|reflexivity].
  destruct (supported_storage fw st) as [d|] eqn:Hd; [|reflexivity].
  now rewrite (H st d (or_introl eq_refl) Hd).
Qed.

Lemma identify_storage_from_first fw device_path before st d after :
  (forall st' d', In st' before -> supported_storage fw st' = Some d' ->
                  probe d' device_path = false) ->
  supported_storage fw st = Some d ->
  probe d device_path = true ->
  identify_storage_from fw device_path STORAGE_ALL (before ++ st :: after)
  = Some (d, st).
Proof.
  intros Hbefore Hd Hp.
  induction before as [|st0 rest IH]; simpl.
  - rewrite Hd, Hp. now rewrite orb_true_r.
  - rewrite IH by (intros st' d' Hin; apply Hbefore; now right).
    rewrite orb_true_r.
    destruct (supported_storage fw st0) as [d0|] eqn:Hd0; [|reflexivity].
    now rewrite (Hbefore st0 d0 (or_introl eq_refl) Hd0).
Qed.

Lemma storage_slots_split st :
  In st storage_slots ->
  exists before after,
    storage_slots = before ++ st :: after
    /\ forall st', In st' before -> storage_type_ord st' < storage_type_ord st.
Proof.
  unfold storage_slots.
  intros [<-|[<-|[<-|[<-|[]]]]].
  - exists [], [STORAGE_UFS; STORAGE_SDCARD; STORAGE_SATA].
    split; [reflexivity | intros ? []].
  - exists [STORAGE_EMMC], [STORAGE_SDCARD; STORAGE_SATA].
    split; [reflexivity | intros ? [<-|[]]; simpl; lia].
  - exists [STORAGE_EMMC; STORAGE_UFS], [STORAGE_SATA].
    split; [reflexivity | intros ? [<-|[<-|[]]]; simpl; lia].
  - exists [STORAGE_EMMC; STORAGE_UFS; STORAGE_SDCARD], [].
    split; [reflexivity | intros ? [<-|[<-|[<-|[]]]]; simpl; lia].
Qed.

Lemma identify_storage_unsupported fw device_path filter :
  (forall st d, In st storage_slots -> supported_storage fw st = Some d ->
                probe d device_path = false) ->
  identify_storage fw device_path filter = (EFI_UNSUPPORTED, None).
Proof.
  intros H. unfold identify_storage.
  now rewrite identify_storage_from_none.
Qed.

Lemma identify_storage_priority fw device_path st d :
  In st storage_slots ->
  supported_storage fw st = Some d ->
  probe d device_path = true ->
  (forall st' d', storage_type_ord st' < storage_type_ord st ->
                  supported_storage fw st' = Some d' ->
                  probe d' device_path = false) ->
  identify_storage fw device_path STORAGE_ALL = (EFI_SUCCESS, Some (d, st)).
Proof.
  intros Hin Hd Hp Hfirst.
  destruct (storage_slots_split st Hin) as (before & after & Heq & Hord).
  unfold identify_storage. rewrite Heq.
  rewrite (identify_storage_from_first fw device_path before st d after);
    auto.
  intros st' d' Hin'. apply Hfirst. now apply Hord.
Qed.

(** No failure of the override changes the state. *)
Lemma storage_set_boot_device_failure fw device s :
  EFI_ERROR (fst (storage_set_boot_device fw device s)) = true ->
  snd (storage_set_boot_device fw device s) = s.
Proof.
  unfold storage_set_boot_device.
  destruct (DevicePathFromHandle fw device) as [dp|]; [|reflexivity].
  destruct (get_pci_device_path fw dp) as [pci|]; [|reflexivity].
  destruct (identify_storage_cases fw dp STORAGE_ALL)
    as [(d & type & ->)| ->]; simpl; [discriminate | reflexivity].
Qed.

(** ** C6: the explicit override *)

(** C6.  [storage_set_boot_device] returns EFI_UNSUPPORTED and leaves the
    whole state as it was when the handle has no device path, when the
    path has no PCI node, and when no registered descriptor probes true on
    the path; no failure changes the state.  When some descriptor probes
    true, it returns EFI_SUCCESS and the state holds the first such
    descriptor in priority order, its type, the PCI node of the handle and
    [initialized = TRUE]; the count of enumeration requests is unchanged,
    so no scan was run. *)
Theorem storage_set_boot_device_spec fw device s :
  (DevicePathFromHandle fw device = None ->
   storage_set_boot_device fw device s = (EFI_UNSUPPORTED, s))
  /\ (forall device_path,
        DevicePathFromHandle fw device = Some device_path ->
        get_pci_device_path fw device_path = None ->
        storage_set_boot_device fw device s = (EFI_UNSUPPORTED, s))
  /\ (forall device_path pci,
        DevicePathFromHandle fw device = Some device_path ->
        get_pci_device_path fw device_path = Some pci ->
        (forall st d, In st storage_slots ->
                      supported_storage fw st = Some d ->
                      probe d device_path = false) ->
        storage_set_boot_device fw device s = (EFI_UNSUPPORTED, s))
  /\ (forall device_path pci st d,
        DevicePathFromHandle fw device = Some device_path ->
        get_pci_device_path fw device_path = Some pci ->
        In st storage_slots ->
        supported_storage fw st = Some d ->
        probe d device_path = true ->
        (forall st' d', storage_type_ord st' < storage_type_ord st ->
                        supported_storage fw st' = Some d' ->
                        probe d' device_path = false) ->
        storage_set_boot_device fw device s
        = (EFI_SUCCESS,
           {| cur_storage := Some d; boot_device := pci;
              boot_device_type := st; initialized := true;
              locate_calls := locate_calls s |}))
  /\ (EFI_ERROR (fst (storage_set_boot_device fw device s)) = true ->
      snd (storage_set_boot_device fw device s) = s).
Proof.
  unfold storage_set_boot_device.
  repeat split.
  - intros ->. reflexivity.
  - intros dp -> ->. reflexivity.
  - intros dp pci -> -> H.
    now rewrite (identify_storage_unsupported fw dp STORAGE_ALL H).
  - intros dp pci st d -> -> Hin Hd Hp Hfirst.
    now rewrite (identify_storage_priority fw dp st d Hin Hd Hp Hfirst).
  - apply storage_set_boot_device_failure.
Qed.

Lemma storage_set_boot_device_spec_witness :
  let s := snd (identify_boot_device Sample.emmc_and_ufs STORAGE_ALL
                  initial_state) in
  storage_set_boot_device Sample.emmc_and_ufs 0 s = (EFI_UNSUPPORTED, s)
  /\ storage_set_boot_device Sample.emmc_and_ufs 9 s = (EFI_UNSUPPORTED, s)
  /\ storage_set_boot_device Sample.emmc_and_ufs 3 s = (EFI_UNSUPPORTED, s)
  /\ storage_set_boot_device Sample.emmc_and_ufs 2 s
     = (EFI_SUCCESS,
        {| cur_storage := Some (Sample.descriptor "UFS" [102]);
           boot_device := {| Header_Type := 1; Header_SubType := 1;
                             Function := 0; Device := 29 |};
           boot_device_type := STORAGE_UFS; initialized := true;
           locate_calls := 1 |}).
Proof.
  intros s.
  split; [|split; [|split]].
  - apply (storage_set_boot_device_spec Sample.emmc_and_ufs 0 s).
    reflexivity.
  - apply (proj1 (proj2
             (storage_set_boot_device_spec Sample.emmc_and_ufs 9 s)) 109);
      reflexivity.
  - apply (proj1 (proj2 (proj2
             (storage_set_boot_device_spec Sample.emmc_and_ufs 3 s)))
             103 {| Header_Type := 1; Header_SubType := 1;
                    Function := 0; Device := 30 |});
      try reflexivity.
    intros st d Hin Hd.
    destruct st; simpl in Hd; inversion Hd; reflexivity.
  - apply (proj1 (proj2 (proj2 (proj2
             (storage_set_boot_device_spec Sample.emmc_and_ufs 2 s))))
             102 {| Header_Type := 1; Header_SubType := 1;
                    Function := 0; Device := 29 |}
             STORAGE_UFS (Sample.descriptor "UFS" [102]));
      try reflexivity.
    + simpl. auto.
    + intros st' d' Hord Hd.
      destruct st'; simpl in Hord, Hd; try lia.
      inversion Hd. reflexivity.
Defined.

(** ** Success of a scan and the descriptor *)

Lemma scan_handle_abort fw filter s h s' :
  scan_handle fw filter s h = Abort s' ->
  cur_storage s' = None /\ Header_Type (boot_device s') = 0.
Proof.
  unfold scan_handle.
  destruct (DevicePathFromHandle fw h) as [dp|]; [|discriminate].
  destruct (get_pci_device_path fw dp) as [pci|]; [|discriminate].
  destruct (same_address (boot_device s) pci); [discriminate|].
  destruct (identify_storage fw dp filter) as [ret [[d type]|]];
    destruct (EFI_ERROR ret); try discriminate.
  destruct (_ || _); [discriminate|].
  destruct (storage_type_eqb _ _); [|discriminate].
  intros [= <-]. now split.
Qed.

Lemma scan_handles_abort fw filter handles : forall s s',
  scan_handles fw filter s handles = Abort s' ->
  cur_storage s' = None /\ Header_Type (boot_device s') = 0.
Proof.
  induction handles as [|h rest IH]; intros s s'; simpl; [discriminate|].
  destruct (scan_handle fw filter s h) as [s1|s1] eqn:Hh.
  - apply IH.
  - intros [= <-]. eapply scan_handle_abort; eassumption.
Qed.

(** A scan reports success exactly when it leaves a descriptor selected. *)
Lemma identify_boot_device_descriptor fw filter s :
  descriptor_set (snd (identify_boot_device fw filter s))
  = negb (EFI_ERROR (fst (identify_boot_device fw filter s))).
Proof.
  unfold identify_boot_device. simpl.
  destruct (LocateHandleBuffer fw (locate_calls s)) as [ret handles].
  destruct (EFI_ERROR ret) eqn:He; simpl; [now rewrite He|].
  destruct (scan_handles _ _ _ _) as [s3|s3] eqn:Hs.
  - unfold descriptor_set.
    destruct (cur_storage s3) eqn:Hc; simpl; rewrite Hc; reflexivity.
  - apply scan_handles_abort in Hs as [Hc _].
    unfold descriptor_set. simpl. now rewrite Hc.
Qed.

Lemma valid_storage_initialized fw s :
  initialized (snd (valid_storage fw s)) = true.
Proof.
  unfold valid_storage. destruct (initialized s) eqn:Hi; simpl; [assumption|].
  pose proof (identify_boot_device_frame fw STORAGE_ALL
                (upd_initialized true s)) as [H _].
  destruct (identify_boot_device _ _ _) as [ret s']. exact H.
Qed.

(** [valid_storage] answers TRUE only with a descriptor selected, and
    answers TRUE whenever the state it leaves holds both an address and a
    descriptor. *)
Lemma valid_storage_descriptor fw s :
  fst (valid_storage fw s) = true ->
  descriptor_set (snd (valid_storage fw s)) = true.
Proof.
  unfold valid_storage. destruct (initialized s); simpl.
  - intros H. apply andb_prop in H as [_ H]. exact H.
  - pose proof (identify_boot_device_descriptor fw STORAGE_ALL
                  (upd_initialized true s)) as H.
    destruct (identify_boot_device _ _ _) as [ret s']. simpl in *.
    congruence.
Qed.

Lemma valid_storage_complete fw s :
  address_set (snd (valid_storage fw s)) = true ->
  descriptor_set (snd (valid_storage fw s)) = true ->
  fst (valid_storage fw s) = true.
Proof.
  unfold valid_storage. destruct (initialized s); simpl.
  - unfold address_set, descriptor_set. intros -> ->. reflexivity.
  - pose proof (identify_boot_device_descriptor fw STORAGE_ALL
                  (upd_initialized true s)) as H.
    destruct (identify_boot_device _ _ _) as [ret s']. simpl in *.
    congruence.
Qed.

Lemma is_boot_device_matches fw s p :
  is_boot_device fw s p = address_set s && path_address_matches fw s p.
Proof.
  unfold is_boot_device, address_set, path_address_matches.
  destruct (Header_Type (boot_device s) =? 0); reflexivity.
Qed.

(** ** Calls that identify nothing leave no descriptor *)

Lemma run_call_no_descriptor fw c s :
  identifies fw c s = false ->
  descriptor_set s = false ->
  descriptor_set (run_call fw c s) = false.
Proof.
  destruct c as [filter| |device|p u|h bio a b]; simpl; intros Hid Hd.
  - rewrite identify_boot_device_descriptor. exact Hid.
  - destruct (initialized s); simpl in *; [exact Hd|].
    rewrite identify_boot_device_descriptor. exact Hid.
  - apply negb_false_iff in Hid.
    now rewrite (storage_set_boot_device_failure fw device s Hid).
  - unfold storage_check_logical_unit.
    destruct (valid_storage fw s) as [ok s'] eqn:E. simpl in Hid.
    assert (Hs' : descriptor_set s' = false).
    { destruct (initialized s) eqn:Hi; simpl in Hid.
      - unfold valid_storage in E. rewrite Hi in E. simpl in E.
        injection E as _ <-. exact Hd.
      - destruct (descriptor_set s') eqn:Hd'; [|reflexivity].
        destruct ok; [discriminate|].
        unfold valid_storage in E. rewrite Hi in E. simpl in E.
        pose proof (identify_boot_device_descriptor fw STORAGE_ALL
                      (upd_initialized true s)) as H.
        destruct (identify_boot_device _ _ _) as [ret s1].
        injection E as E1 <-. simpl in H. congruence. }
    destruct (negb ok); [exact Hs'|].
    destruct (negb (is_boot_device fw s' p)); [exact Hs'|].
    destruct (cur_storage s'); exact Hs'.
  - unfold storage_erase_blocks.
    destruct (valid_storage fw s) as [ok s'] eqn:E. simpl in Hid.
    assert (Hs' : descriptor_set s' = false).
    { destruct (initialized s) eqn:Hi; simpl in Hid.
      - unfold valid_storage in E. rewrite Hi in E. simpl in E.
        injection E as _ <-. exact Hd.
      - destruct (descriptor_set s') eqn:Hd'; [|reflexivity].
        destruct ok; [discriminate|].
        unfold valid_storage in E. rewrite Hi in E. simpl in E.
        pose proof (identify_boot_device_descriptor fw STORAGE_ALL
                      (upd_initialized true s)) as H.
        destruct (identify_boot_device _ _ _) as [ret s1].
        injection E as E1 <-. simpl in H. congruence. }
    destruct (negb ok); [exact Hs'|].
    destruct (cur_storage s'); exact Hs'.
Qed.

Lemma never_identified_app fw cs2 : forall cs1 s,
  never_identified fw (cs1 ++ cs2) s
  = never_identified fw cs1 s && never_identified fw cs2 (run fw cs1 s).
Proof.
  induction cs1 as [|c rest IH]; intros s; simpl; [reflexivity|].
  rewrite IH. now rewrite andb_assoc.
Qed.

Lemma run_no_descriptor fw : forall cs s,
  never_identified fw cs s = true ->
  descriptor_set s = false ->
  descriptor_set (run fw cs s) = false.
Proof.
  induction cs as [|c rest IH]; intros s Hn Hd; simpl in *; [exact Hd|].
  apply andb_prop in Hn as [Hc Hrest].
  apply IH; [exact Hrest|].
  apply run_call_no_descriptor; [now apply negb_true_iff | exact Hd].
Qed.

(** ** C7: storage_check_logical_unit *)

(** C7 as stated fails: called in the start-up state, before anything was
    identified, on a platform with one eMMC controller and with the path
    of that controller, [storage_check_logical_unit] runs the lazy scan
    itself and returns what the eMMC descriptor answers (EFI_SUCCESS), not
    EFI_UNSUPPORTED. *)
Lemma check_logical_unit_before_identification :
  never_identified Sample.one_emmc [] initial_state = true
  /\ cache_valid initial_state = false
  /\ fst (storage_check_logical_unit Sample.one_emmc 101 0 initial_state)
     = EFI_SUCCESS
  /\ EFI_SUCCESS <> EFI_UNSUPPORTED.
Proof. vm_compute. repeat split; try reflexivity. discriminate. Qed.

(** C7, amended.  [storage_check_logical_unit] first runs the lazy scan
    when [initialized] is FALSE: it sets the flag and calls
    [identify_boot_device(STORAGE_ALL)], and the cache is left as that scan
    leaves it; with the flag TRUE the cache is left untouched.  In the
    state [s'] the call leaves: unless the cache is valid and the bus
    address of [p] equals the cached one on [Function] and [Device], the
    call returns EFI_UNSUPPORTED; when both hold, it returns what the
    cached descriptor's [check_logical_unit] answers for [(p, log_unit)].
    In particular, after any sequence of calls from the start-up state
    none of which identified a boot device, it returns EFI_UNSUPPORTED for
    every path, unless the lazy scan it runs itself succeeds. *)
Theorem storage_check_logical_unit_spec fw p log_unit s :
  let r := storage_check_logical_unit fw p log_unit s in
  snd r
  = (if initialized s then s
     else snd (identify_boot_device fw STORAGE_ALL (upd_initialized true s)))
  /\ (cache_valid (snd r) && path_address_matches fw (snd r) p = false ->
      fst r = EFI_UNSUPPORTED)
  /\ (cache_valid (snd r) && path_address_matches fw (snd r) p = true ->
      exists d, cur_storage (snd r) = Some d
                /\ fst r = check_logical_unit d p log_unit)
  /\ (forall cs,
        s = run fw cs initial_state ->
        never_identified fw (cs ++ [Call_check_logical_unit p log_unit])
          initial_state = true ->
        fst r = EFI_UNSUPPORTED).
Proof.
  assert (Hstate : snd (storage_check_logical_unit fw p log_unit s)
                   = snd (valid_storage fw s)).
  { unfold storage_check_logical_unit.
    destruct (valid_storage fw s) as [ok s']. simpl.
    destruct (negb ok); [reflexivity|].
    destruct (negb (is_boot_device fw s' p)); [reflexivity|].
    destruct (cur_storage s'); reflexivity. }
  assert (Hscan : snd (valid_storage fw s)
                  = (if initialized s then s
                     else snd (identify_boot_device fw STORAGE_ALL
                                 (upd_initialized true s)))).
  { unfold valid_storage. destruct (initialized s); simpl; [reflexivity|].
    destruct (identify_boot_device fw STORAGE_ALL (upd_initialized true s));
      reflexivity. }
  assert (Hinvalid : fst (valid_storage fw s) = false ->
                     fst (storage_check_logical_unit fw p log_unit s)
                     = EFI_UNSUPPORTED).
  { unfold storage_check_logical_unit.
    destruct (valid_storage fw s) as [ok s']. simpl. now intros ->. }
  simpl. split; [now rewrite Hstate|]. rewrite Hstate.
  pose proof (valid_storage_initialized fw s) as Hinit.
  pose proof (valid_storage_descriptor fw s) as Hdesc.
  pose proof (valid_storage_complete fw s) as Hcomp.
  split; [|split].
  - unfold cache_valid. rewrite Hinit. simpl.
    destruct (fst (valid_storage fw s)) eqn:Hok; [|auto].
    specialize (Hdesc eq_refl). rewrite Hdesc, andb_true_r.
    intros Hno. unfold storage_check_logical_unit.
    destruct (valid_storage fw s) as [ok s']. simpl in *. subst ok. simpl.
    rewrite is_boot_device_matches, Hno. reflexivity.
  - unfold cache_valid. rewrite Hinit. simpl. intros H.
    apply andb_prop in H as [H Hm]. apply andb_prop in H as [Ha Hd].
    specialize (Hcomp Ha Hd).
    unfold storage_check_logical_unit.
    destruct (valid_storage fw s) as [ok s']. simpl in *. subst ok. simpl.
    rewrite is_boot_device_matches, Ha, Hm. simpl.
    unfold descriptor_set in Hd.
    destruct (cur_storage s') as [d|]; [|discriminate].
    exists d. now split.
  - intros cs -> Hnever.
    rewrite never_identified_app in Hnever.
    apply andb_prop in Hnever as [Hcs Hlast]. simpl in Hlast.
    rewrite andb_true_r in Hlast. apply negb_true_iff in Hlast.
    pose proof (run_no_descriptor fw cs initial_state Hcs eq_refl) as Hnone.
    apply Hinvalid.
    destruct (initialized (run fw cs initial_state)) eqn:Hi;
      simpl in Hlast; [|exact Hlast].
    unfold valid_storage. rewrite Hi. simpl.
    unfold descriptor_set in Hnone.
    destruct (cur_storage (run fw cs initial_state)); [discriminate|].
    apply andb_false_r.
Qed.

Lemma storage_check_logical_unit_spec_witness :
  (snd (storage_check_logical_unit Sample.one_emmc 102 0 initial_state)
   = snd (identify_boot_device Sample.one_emmc STORAGE_ALL
            (upd_initialized true initial_state))
   /\ locate_calls
        (snd (storage_check_logical_unit Sample.one_emmc 102 0
                initial_state)) = 1%nat)
  /\ fst (storage_check_logical_unit Sample.one_emmc 102 0 initial_state)
     = EFI_UNSUPPORTED
  /\ (exists d,
        cur_storage
          (snd (storage_check_logical_unit Sample.one_emmc 101 0
                  initial_state)) = Some d
        /\ fst (storage_check_logical_unit Sample.one_emmc 101 0
                  initial_state) = check_logical_unit d 101 0)
  /\ fst (storage_check_logical_unit Sample.no_storage 101 0
            (run Sample.no_storage
               [Call_get_boot_device; Call_set_boot_device 1] initial_state))
     = EFI_UNSUPPORTED.
Proof.
  split; [|split; [|split]].
  - split.
    + exact (proj1 (storage_check_logical_unit_spec Sample.one_emmc 102 0
                      initial_state)).
    + rewrite (proj1 (storage_check_logical_unit_spec Sample.one_emmc 102 0
                        initial_state)).
      reflexivity.
  - apply (proj1 (proj2
             (storage_check_logical_unit_spec Sample.one_emmc 102 0
                initial_state))).
    reflexivity.
  - apply (proj1 (proj2 (proj2
             (storage_check_logical_unit_spec Sample.one_emmc 101 0
                initial_state)))).
    reflexivity.
  - apply (proj2 (proj2 (proj2
             (storage_check_logical_unit_spec Sample.no_storage 101 0
                (run Sample.no_storage
                   [Call_get_boot_device; Call_set_boot_device 1]
                   initial_state))))
             [Call_get_boot_device; Call_set_boot_device 1]);
      reflexivity.
Defined.

(** ** The loop body in terms of what a handle is recognised as *)

Lemma scan_handle_recognise fw filter s h :
  scan_handle fw filter s h
  = match recognise fw filter h with
    | None => Continue s
    | Some (pci, d, type) =>
        if same_address (boot_device s) pci then Continue s
        else if (Header_Type (boot_device s) =? 0)
                || (storage_type_ord type
                      <? storage_type_ord (boot_device_type s))
        then Continue (upd_cur_storage (Some d)
                         (upd_boot_device_type type (upd_boot_device pci s)))
        else if storage_type_eqb (boot_device_type s) type
        then Abort (clear_header_type (upd_cur_storage None s))
        else Continue s
    end.
Proof.
  unfold scan_handle, recognise.
  destruct (DevicePathFromHandle fw h) as [dp|]; [|reflexivity].
  destruct (get_pci_device_path fw dp) as [pci|]; [|reflexivity].
  destruct (identify_storage fw dp filter) as [ret [[d type]|]];
    destruct (EFI_ERROR ret);
    destruct (same_address (boot_device s) pci); reflexivity.
Qed.

Lemma scan_handles_app fw filter l1 l2 : forall s,
  scan_handles fw filter s (l1 ++ l2)
  = match scan_handles fw filter s l1 with
    | Continue s' => scan_handles fw filter s' l2
    | Abort s' => Abort s'
    end.
Proof.
  induction l1 as [|h rest IH]; intros s; simpl; [reflexivity|].
  destruct (scan_handle fw filter s h); [apply IH | reflexivity].
Qed.

Lemma same_address_refl a : same_address a a = true.
Proof. unfold same_address. now rewrite !Z.eqb_refl. Qed.



Lemma storage_type_ord_inj a b :
  storage_type_ord a = storage_type_ord b -> a = b.
Proof. destruct a, b; simpl; intros H; solve [reflexivity | discriminate]. Qed.

(** ** C2: two controllers of the same technology *)


Section Ambiguity.

Variable fw : firmware.
Variable filter : storage_type.
Variable T : storage_type.
Variable pci1 : PCI_DEVICE_PATH.

Hypothesis typed : pci_nodes_typed fw.

Lemma recognise_typed h pci d t :
  recognise fw filter h = Some (pci, d, t) -> Header_Type pci <> 0.
Proof.
  unfold recognise.
  destruct (DevicePathFromHandle fw h) as [dp|]; [|discriminate].
  destruct (get_pci_device_path fw dp) as [pci'|] eqn:Hpci; [|discriminate].
  destruct (identify_storage fw dp filter) as [ret [[d' t']|]];
    [|discriminate].
  destruct (EFI_ERROR ret); [discriminate|].
  intros [= <- _ _]. eapply typed; eassumption.
Qed.








End Ambiguity.

Lemma platform_typed enum emmc ufs sdcard sata :
  pci_nodes_typed (Sample.platform enum emmc ufs sdcard sata).
Proof.
  intros p pci. simpl. destruct (p =? 109); [discriminate|].
  intros [= <-]. simpl. discriminate.
Qed.






(** ** Priority between technologies, on a scan without a stale address *)

Lemma same_address_sym a b : same_address a b = same_address b a.
Proof.
  unfold same_address.
  now rewrite (Z.eqb_sym (Function a)), (Z.eqb_sym (Device a)).
Qed.

Section Priority.

Variable fw : firmware.
Variable filter : storage_type.
Variable T1 : storage_type.
Variable pci1 : PCI_DEVICE_PATH.
Variable d1 : storage.
Variables before after : list EFI_HANDLE.
Variable h1 : EFI_HANDLE.

Hypothesis typed : pci_nodes_typed fw.
Hypothesis first : recognise fw filter h1 = Some (pci1, d1, T1).
(** Before [h1]: only technologies of lower priority, at other addresses,
    and none of them on two controllers. *)
Hypothesis lower : forall h pci d t,
  In h before -> recognise fw filter h = Some (pci, d, t) ->
  storage_type_ord T1 < storage_type_ord t /\ same_address pci pci1 = false.
Hypothesis single : forall h h' pci pci' d d' t,
  In h before -> In h' before ->
  recognise fw filter h = Some (pci, d, t) ->
  recognise fw filter h' = Some (pci', d', t) ->
  same_address pci pci' = true.
(** After [h1]: nothing of higher priority, and [T1] only at the address
    of [pci1]. *)
Hypothesis rest : forall h pci d t,
  In h after -> recognise fw filter h = Some (pci, d, t) ->
  storage_type_ord T1 <= storage_type_ord t
  /\ (t = T1 -> same_address pci pci1 = true).

Lemma scan_before_first : forall handles s,
  incl handles before ->
  (Header_Type (boot_device s) = 0
   /\ same_address (boot_device s) pci1 = false)
  \/ (Header_Type (boot_device s) <> 0
      /\ exists h0 d0,
          In h0 before
          /\ recognise fw filter h0
             = Some (boot_device s, d0, boot_device_type s)) ->
  exists s',
    scan_handles fw filter s handles = Continue s'
    /\ ((Header_Type (boot_device s') = 0
         /\ same_address (boot_device s') pci1 = false)
        \/ (Header_Type (boot_device s') <> 0
            /\ exists h0 d0,
                In h0 before
                /\ recognise fw filter h0
                   = Some (boot_device s', d0, boot_device_type s'))).
Proof.
  induction handles as [|h hs IH]; intros s Hincl Hinv; simpl; [eauto|].
  assert (Hin : In h before) by (apply Hincl; now left).
  assert (Hincl' : incl hs before)
    by (intros x Hx; apply Hincl; now right).
  rewrite scan_handle_recognise.
  destruct (recognise fw filter h) as [[[pci d] t]|] eqn:Hr; [|now apply IH].
  destruct (same_address (boot_device s) pci) eqn:Hskip; [now apply IH|].
  destruct (_ || _) eqn:Hacc.
  - apply IH; [exact Hincl'|]. right. simpl. split.
    + eapply recognise_typed; eassumption.
    + exists h, d. now split.
  - apply orb_false_elim in Hacc as [Hty _]. apply Z.eqb_neq in Hty.
    destruct Hinv as [[Hzero _]|(_ & h0 & d0 & Hin0 & Hr0)];
      [contradiction|].
    unfold storage_type_eqb.
    destruct (Z.eqb_spec (storage_type_ord (boot_device_type s))
                (storage_type_ord t)) as [Heq|_].
    + apply storage_type_ord_inj in Heq. rewrite Heq in Hr0.
      rewrite (single h0 h _ _ _ _ _ Hin0 Hin Hr0 Hr) in Hskip.
      discriminate.
    + apply IH; [exact Hincl'|]. right. split; [exact Hty|eauto].
Qed.

Lemma scan_after_first : forall handles s,
  incl handles after ->
  boot_device s = pci1 -> boot_device_type s = T1 ->
  cur_storage s = Some d1 ->
  exists s',
    scan_handles fw filter s handles = Continue s'
    /\ boot_device s' = pci1 /\ boot_device_type s' = T1
    /\ cur_storage s' = Some d1.
Proof.
  induction handles as [|h hs IH]; intros s Hincl Hb Ht Hc; simpl; [eauto|].
  assert (Hin : In h after) by (apply Hincl; now left).
  assert (Hincl' : incl hs after)
    by (intros x Hx; apply Hincl; now right).
  rewrite scan_handle_recognise.
  destruct (recognise fw filter h) as [[[pci d] t]|] eqn:Hr; [|now apply IH].
  destruct (same_address (boot_device s) pci) eqn:Hskip; [now apply IH|].
  destruct (rest h pci d t Hin Hr) as [Hle Hsame].
  pose proof (recognise_typed fw filter typed h1 pci1 d1 T1 first) as Hty.
  rewrite Hb, Ht. apply Z.eqb_neq in Hty. rewrite Hty. simpl.
  destruct (Z.ltb_spec (storage_type_ord t) (storage_type_ord T1)); [lia|].
  unfold storage_type_eqb.
  destruct (Z.eqb_spec (storage_type_ord T1) (storage_type_ord t))
    as [Heq|_]; [|now apply IH].
  apply storage_type_ord_inj in Heq. symmetry in Heq.
  specialize (Hsame Heq).
  rewrite Hb, same_address_sym, Hsame in Hskip. discriminate.
Qed.

(** Whatever the order of enumeration, a scan that does not start with the
    address of the [T1] controller left in the cache commits that
    controller: its descriptor, its type and its PCI node. *)
Lemma identify_boot_device_priority s ret :
  LocateHandleBuffer fw (locate_calls s) = (ret, before ++ h1 :: after) ->
  EFI_ERROR ret = false ->
  same_address (boot_device s) pci1 = false ->
  fst (identify_boot_device fw filter s) = EFI_SUCCESS
  /\ cur_storage (snd (identify_boot_device fw filter s)) = Some d1
  /\ boot_device_type (snd (identify_boot_device fw filter s)) = T1
  /\ boot_device (snd (identify_boot_device fw filter s)) = pci1.
Proof.
  intros Henum Hret Hstale.
  unfold identify_boot_device. simpl. rewrite Henum, Hret.
  rewrite scan_handles_app.
  destruct (scan_before_first before
              (clear_header_type (count_locate (upd_cur_storage None s)))
              (incl_refl _)) as (sA & -> & HA).
  { left. split; [reflexivity | exact Hstale]. }
  simpl. rewrite scan_handle_recognise, first.
  assert (Hskip : same_address (boot_device sA) pci1 = false).
  { destruct HA as [[_ H]|(_ & h0 & d0 & Hin0 & Hr0)]; [exact H|].
    apply (lower h0 _ _ _ Hin0 Hr0). }
  rewrite Hskip.
  assert (Hacc : (Header_Type (boot_device sA) =? 0)
                 || (storage_type_ord T1
                       <? storage_type_ord (boot_device_type sA)) = true).
  { destruct HA as [[H _]|(_ & h0 & d0 & Hin0 & Hr0)].
    - now rewrite H.
    - destruct (lower h0 _ _ _ Hin0 Hr0) as [Hlt _].
      apply Z.ltb_lt in Hlt. rewrite Hlt. apply orb_true_r. }
  rewrite Hacc.
  destruct (scan_after_first after
              (upd_cur_storage (Some d1)
                 (upd_boot_device_type T1 (upd_boot_device pci1 sA)))
              (incl_refl _) eq_refl eq_refl eq_refl)
    as (sB & -> & Hb & Ht & Hc).
  rewrite Hc. simpl. auto.
Qed.

End Priority.

(** UFS enumerated before eMMC, first scan: eMMC is committed. *)
Lemma identify_boot_device_priority_ufs_first :
  let r := identify_boot_device Sample.ufs_then_emmc STORAGE_ALL
             initial_state in
  fst r = EFI_SUCCESS
  /\ cur_storage (snd r) = Some (Sample.descriptor "eMMC" [101])
  /\ boot_device_type (snd r) = STORAGE_EMMC
  /\ boot_device (snd r) = {| Header_Type := 1; Header_SubType := 1;
                              Function := 0; Device := 28 |}.
Proof.
  apply (identify_boot_device_priority Sample.ufs_then_emmc STORAGE_ALL
           STORAGE_EMMC _ _ [2] [] 1 (platform_typed _ _ _ _ _))
    with (ret := EFI_SUCCESS); try reflexivity.
  - intros h pci d t [<-|[]] Hr. vm_compute in Hr.
    injection Hr as <- _ <-. split; reflexivity.
  - intros h h' pci pci' d d' t [<-|[]] [<-|[]] Hr Hr'.
    rewrite Hr in Hr'. injection Hr' as <- _. apply same_address_refl.
  - intros h pci d t [].
Qed.

(** ** fill_with: the chunks *)

Lemma wrap64_small x : 0 <= x < 2 ^ 64 -> wrap64 x = x.
Proof. intros H. unfold wrap64. now apply Z.mod_small. Qed.

Lemma disk_writes_succeed : writes_succeed Sample.disk.
Proof. intros calls c. reflexivity. Qed.

Lemma chunks_needed_bounds start end_ pattern_blocks :
  1 <= pattern_blocks ->
  (chunks_needed start end_ pattern_blocks - 1) * pattern_blocks
  < end_ - start + 1
  <= chunks_needed start end_ pattern_blocks * pattern_blocks.
Proof.
  intros Hblocks. unfold chunks_needed.
  pose proof (Z.div_mod (end_ - start + 1 + (pattern_blocks - 1))
                pattern_blocks ltac:(lia)) as Hdm.
  pose proof (Z.mod_pos_bound (end_ - start + 1 + (pattern_blocks - 1))
                pattern_blocks ltac:(lia)) as Hm.
  nia.
Qed.

Lemma chunks_needed_pos start end_ pattern_blocks :
  start < end_ -> 1 <= pattern_blocks ->
  1 <= chunks_needed start end_ pattern_blocks.
Proof.
  intros Hrange Hblocks.
  pose proof (chunks_needed_bounds start end_ pattern_blocks Hblocks). nia.
Qed.

(** Every chunk but the last covers [pattern_blocks] blocks. *)
Lemma chunk_size_full start end_ pattern_blocks k :
  1 <= pattern_blocks ->
  0 <= k < chunks_needed start end_ pattern_blocks - 1 ->
  chunk_size start end_ pattern_blocks k = pattern_blocks.
Proof.
  intros Hblocks Hk.
  pose proof (chunks_needed_bounds start end_ pattern_blocks Hblocks).
  unfold chunk_size, chunk_lba. apply Z.min_l. nia.
Qed.

(** The last chunk covers what remains, at least one block, and ends on
    block [end_]. *)
Lemma chunk_size_last start end_ pattern_blocks :
  1 <= pattern_blocks ->
  let last := chunks_needed start end_ pattern_blocks - 1 in
  chunk_size start end_ pattern_blocks last
  = end_ - chunk_lba start pattern_blocks last + 1
  /\ 1 <= chunk_size start end_ pattern_blocks last <= pattern_blocks.
Proof.
  intros Hblocks last. subst last.
  pose proof (chunks_needed_bounds start end_ pattern_blocks Hblocks).
  unfold chunk_size, chunk_lba.
  rewrite Z.min_r by nia. split; [reflexivity | nia].
Qed.

(** No chunk starts before [start] or reaches past block [end_]. *)
Lemma chunk_within start end_ pattern_blocks k :
  1 <= pattern_blocks -> 0 <= k ->
  start <= chunk_lba start pattern_blocks k
  /\ chunk_lba start pattern_blocks k
     + chunk_size start end_ pattern_blocks k - 1 <= end_.
Proof.
  intros Hblocks Hk. unfold chunk_size, chunk_lba. split; [nia | lia].
Qed.

(** ** C9: the writes of fill_with *)

(** With [m] chunks left to write and more than [m] units of fuel, the
    loop entered at chunk [i] issues exactly the remaining chunks. *)
Lemma fill_loop_tiles bio start end_ pattern pattern_blocks :
  0 <= start -> start < end_ -> 1 <= pattern_blocks ->
  start + chunks_needed start end_ pattern_blocks * pattern_blocks < 2 ^ 64 ->
  writes_succeed bio ->
  forall m i fuel calls,
    (i + m)%nat = Z.to_nat (chunks_needed start end_ pattern_blocks) ->
    (m < fuel)%nat ->
    fill_loop fuel bio end_ pattern pattern_blocks
      (chunk_lba start pattern_blocks (Z.of_nat i)) calls
    = (Some EFI_SUCCESS,
       calls ++ map (chunk_call bio pattern start end_ pattern_blocks)
                  (seq i m)).
Proof.
  intros Hstart Hrange Hblocks Hwrap Hok.
  pose proof (chunks_needed_bounds start end_ pattern_blocks Hblocks) as Hn.
  pose proof (chunks_needed_pos start end_ pattern_blocks Hrange Hblocks)
    as Hpos.
  set (n := chunks_needed start end_ pattern_blocks) in *.
  induction m as [|m IH]; intros i fuel calls Him Hfuel;
    (destruct fuel as [|fuel]; [lia|]); simpl.
  - assert (Hi : Z.of_nat i = n) by lia.
    unfold chunk_lba. rewrite Hi.
    destruct (Z.leb_spec (start + n * pattern_blocks) end_) as [Hle|_];
      [lia|].
    now rewrite app_nil_r.
  - assert (Hi : 0 <= Z.of_nat i <= n - 1) by lia.
    assert (Hlba : start <= chunk_lba start pattern_blocks (Z.of_nat i)
                   <= end_) by (unfold chunk_lba; nia).
    assert (Hnext : chunk_lba start pattern_blocks (Z.of_nat i)
                    + pattern_blocks
                    = chunk_lba start pattern_blocks (Z.of_nat (S i)))
      by (unfold chunk_lba; lia).
    assert (Hnextb : chunk_lba start pattern_blocks (Z.of_nat (S i))
                     <= start + n * pattern_blocks)
      by (unfold chunk_lba; nia).
    destruct (Z.leb_spec (chunk_lba start pattern_blocks (Z.of_nat i)) end_)
      as [_|Hgt]; [|lia].
    rewrite Hok, Hnext.
    rewrite (wrap64_small (chunk_lba start pattern_blocks (Z.of_nat (S i))))
      by lia.
    rewrite (wrap64_small (end_ + 1)) by lia.
    rewrite (wrap64_small
               (end_ - chunk_lba start pattern_blocks (Z.of_nat i))) by lia.
    rewrite (wrap64_small
               (end_ - chunk_lba start pattern_blocks (Z.of_nat i) + 1))
      by lia.
    rewrite IH by lia.
    rewrite <- app_assoc. cbn [seq map app]. do 3 f_equal.
    unfold chunk_call. do 3 f_equal.
    unfold chunk_size.
    destruct (Z.gtb_spec (chunk_lba start pattern_blocks (Z.of_nat (S i)))
                (end_ + 1)); lia.
Qed.

(** The calls already issued are kept, and more fuel only adds calls. *)
Lemma fill_loop_extends bio end_ pattern pattern_blocks :
  forall fuel lba calls,
  exists more,
    snd (fill_loop fuel bio end_ pattern pattern_blocks lba calls)
    = calls ++ more.
Proof.
  induction fuel as [|fuel IH]; intros lba calls; simpl.
  - exists []. now rewrite app_nil_r.
  - destruct (lba <=? end_); [|exists []; now rewrite app_nil_r].
    destruct (EFI_ERROR _); [eexists; reflexivity|].
    edestruct IH as [more ->]. rewrite <- app_assoc. eexists; reflexivity.
Qed.

Lemma fill_loop_more_fuel bio end_ pattern pattern_blocks extra :
  forall fuel lba calls,
  exists more,
    snd (fill_loop (fuel + extra) bio end_ pattern pattern_blocks lba calls)
    = snd (fill_loop fuel bio end_ pattern pattern_blocks lba calls) ++ more.
Proof.
  induction fuel as [|fuel IH]; intros lba calls; simpl.
  - apply fill_loop_extends.
  - destruct (lba <=? end_); [|exists []; now rewrite app_nil_r].
    destruct (EFI_ERROR _); [exists []; now rewrite app_nil_r|].
    apply IH.
Qed.

Lemma fill_with_more_fuel bio start end_ pattern pattern_blocks fuel extra
    calls :
  exists more,
    snd (fill_with (fuel + extra) bio start end_ pattern pattern_blocks calls)
    = snd (fill_with fuel bio start end_ pattern pattern_blocks calls)
      ++ more.
Proof.
  unfold fill_with.
  destruct (end_ <=? start); [exists []; now rewrite app_nil_r|].
  apply fill_loop_more_fuel.
Qed.

Lemma fill_with_top_two_passes :
  fill_with 2 Sample.disk Sample.top_start Sample.top_end 0 16 []
  = (None,
     [{| w_media := 7; w_lba := Sample.top_start; w_bytes := 512 * 16;
         w_buffer := 0 |};
      {| w_media := 7; w_lba := 6; w_bytes := 512 * 16; w_buffer := 0 |}]).
Proof. vm_compute. reflexivity. Qed.

Lemma fill_with_wide_chunks :
  fill_with 4 Sample.disk 0 Sample.wide_end 0 Sample.wide_blocks []
  = (Some EFI_SUCCESS,
     [{| w_media := 7; w_lba := 0; w_bytes := 0; w_buffer := 0 |};
      {| w_media := 7; w_lba := Sample.wide_blocks; w_bytes := 0;
         w_buffer := 0 |};
      {| w_media := 7; w_lba := Sample.wide_end; w_bytes := 512;
         w_buffer := 0 |}]).
Proof. vm_compute. reflexivity. Qed.

(** C9 as stated fails where 64-bit arithmetic wraps around.  Filling
    blocks 2^64-10 .. 2^64-2 (9 blocks, one chunk) in chunks of 16 on a
    device that accepts every write: [lba + pattern_blocks] wraps to 6,
    the clamp of line 195 is not taken, and the first write covers 16
    blocks, past block [end]; [lba] then wraps to 6 and the second write
    lands below [start].  Every longer run begins with these two writes.
    Filling blocks 0 .. 2^56 in chunks of 2^55 blocks of 512 bytes: the
    byte count [BlockSize * size] of line 204 wraps to 0, and the two full
    chunks are written with a byte count of 0, covering no block. *)
Lemma fill_with_wraps_past_end :
  writes_succeed Sample.disk
  /\ (Sample.top_start < Sample.top_end /\ Sample.top_end < 2 ^ 64
      /\ chunks_needed Sample.top_start Sample.top_end 16 = 1)
  /\ (forall fuel,
        firstn 2
          (snd (fill_with (2 + fuel) Sample.disk Sample.top_start
                  Sample.top_end 0 16 []))
        = [{| w_media := 7; w_lba := Sample.top_start; w_bytes := 512 * 16;
              w_buffer := 0 |};
           {| w_media := 7; w_lba := 6; w_bytes := 512 * 16;
              w_buffer := 0 |}])
  /\ (Sample.top_end < Sample.top_start + 16 - 1
      /\ 6 < Sample.top_start)
  /\ (0 < Sample.wide_end /\ 1 <= Sample.wide_blocks
      /\ Sample.wide_end + Sample.wide_blocks < 2 ^ 64
      /\ map w_bytes
           (snd (fill_with 4 Sample.disk 0 Sample.wide_end 0
                   Sample.wide_blocks []))
         = [0; 0; 512]
      /\ BlockSize Sample.disk * Sample.wide_blocks = 2 ^ 64).
Proof.
  split; [exact disk_writes_succeed|].
  split; [vm_compute; repeat split; reflexivity|].
  split; [|split; [vm_compute; split; reflexivity|]].
  - intros fuel.
    destruct (fill_with_more_fuel Sample.disk Sample.top_start Sample.top_end
                0 16 2 fuel []) as [more ->].
    rewrite fill_with_top_two_passes. reflexivity.
  - rewrite fill_with_wide_chunks.
    vm_compute. repeat split; try reflexivity; discriminate.
Qed.

(** [end + pattern_blocks < 2^64] is enough for the block arithmetic of the
    loop not to wrap. *)
Lemma chunks_fit start end_ pattern_blocks :
  1 <= pattern_blocks -> end_ + pattern_blocks < 2 ^ 64 ->
  start + chunks_needed start end_ pattern_blocks * pattern_blocks < 2 ^ 64.
Proof.
  intros Hblocks Hfit.
  pose proof (chunks_needed_bounds start end_ pattern_blocks Hblocks). nia.
Qed.

(** When a chunk's byte count fits 64 bits, the calls of [tiling] carry
    exactly [BlockSize] times their block count. *)
Lemma tiling_block_tiling bio pattern start end_ pattern_blocks :
  1 <= pattern_blocks ->
  0 <= BlockSize bio -> BlockSize bio * pattern_blocks < 2 ^ 64 ->
  tiling bio pattern start end_ pattern_blocks
  = block_tiling bio pattern start end_ pattern_blocks.
Proof.
  intros Hblocks Hbs Hfit.
  pose proof (chunks_needed_bounds start end_ pattern_blocks Hblocks) as Hn.
  unfold tiling, block_tiling. apply map_ext_in.
  intros k Hk. apply in_seq in Hk.
  unfold chunk_call, chunk_write. f_equal.
  apply wrap64_small.
  assert (Hsize : 1 <= chunk_size start end_ pattern_blocks (Z.of_nat k)
                  <= pattern_blocks).
  { unfold chunk_size, chunk_lba. split; [|lia].
    apply Z.min_glb; [lia|]. nia. }
  nia.
Qed.

(** The loop issues the remaining chunks as long as each of them, in its
    turn, is accepted by the device. *)
Lemma fill_loop_tiles_accepted bio start end_ pattern pattern_blocks :
  0 <= start -> start < end_ -> 1 <= pattern_blocks ->
  start + chunks_needed start end_ pattern_blocks * pattern_blocks < 2 ^ 64 ->
  forall m i fuel calls,
    (i + m)%nat = Z.to_nat (chunks_needed start end_ pattern_blocks) ->
    (m < fuel)%nat ->
    all_written bio calls
      (map (chunk_call bio pattern start end_ pattern_blocks) (seq i m))
    = true ->
    fill_loop fuel bio end_ pattern pattern_blocks
      (chunk_lba start pattern_blocks (Z.of_nat i)) calls
    = (Some EFI_SUCCESS,
       calls ++ map (chunk_call bio pattern start end_ pattern_blocks)
                  (seq i m)).
Proof.
  intros Hstart Hrange Hblocks Hwrap.
  pose proof (chunks_needed_bounds start end_ pattern_blocks Hblocks) as Hn.
  pose proof (chunks_needed_pos start end_ pattern_blocks Hrange Hblocks)
    as Hpos.
  set (n := chunks_needed start end_ pattern_blocks) in *.
  induction m as [|m IH]; intros i fuel calls Him Hfuel Hok;
    (destruct fuel as [|fuel]; [lia|]); cbn [fill_loop].
  - assert (Hi : Z.of_nat i = n) by lia.
    unfold chunk_lba. rewrite Hi.
    destruct (Z.leb_spec (start + n * pattern_blocks) end_) as [Hle|_];
      [lia|].
    simpl. now rewrite app_nil_r.
  - assert (Hi : 0 <= Z.of_nat i <= n - 1) by lia.
    assert (Hlba : start <= chunk_lba start pattern_blocks (Z.of_nat i)
                   <= end_) by (unfold chunk_lba; nia).
    assert (Hnext : chunk_lba start pattern_blocks (Z.of_nat i)
                    + pattern_blocks
                    = chunk_lba start pattern_blocks (Z.of_nat (S i)))
      by (unfold chunk_lba; lia).
    assert (Hnextb : chunk_lba start pattern_blocks (Z.of_nat (S i))
                     <= start + n * pattern_blocks)
      by (unfold chunk_lba; nia).
    destruct (Z.leb_spec (chunk_lba start pattern_blocks (Z.of_nat i)) end_)
      as [_|Hgt]; [|lia].
    rewrite Hnext.
    rewrite (wrap64_small (chunk_lba start pattern_blocks (Z.of_nat (S i))))
      by lia.
    rewrite (wrap64_small (end_ + 1)) by lia.
    rewrite (wrap64_small
               (end_ - chunk_lba start pattern_blocks (Z.of_nat i))) by lia.
    rewrite (wrap64_small
               (end_ - chunk_lba start pattern_blocks (Z.of_nat i) + 1))
      by lia.
    assert (Hsize : (if chunk_lba start pattern_blocks (Z.of_nat (S i))
                        >? end_ + 1
                     then end_ - chunk_lba start pattern_blocks (Z.of_nat i)
                          + 1
                     else pattern_blocks)
                    = chunk_size start end_ pattern_blocks (Z.of_nat i)).
    { unfold chunk_size.
      destruct (Z.gtb_spec (chunk_lba start pattern_blocks (Z.of_nat (S i)))
                  (end_ + 1)); lia. }
    rewrite Hsize.
    change {| w_media := MediaId bio;
              w_lba := chunk_lba start pattern_blocks (Z.of_nat i);
              w_bytes := wrap64 (BlockSize bio
                                 * chunk_size start end_ pattern_blocks
                                     (Z.of_nat i));
              w_buffer := pattern |}
      with (chunk_call bio pattern start end_ pattern_blocks i).
    cbn [seq map all_written] in Hok.
    apply andb_prop in Hok as [Hthis Hrest].
    apply negb_true_iff in Hthis. rewrite Hthis.
    rewrite (IH (S i) fuel _ ltac:(lia) ltac:(lia) Hrest).
    rewrite <- app_assoc. reflexivity.
Qed.

(** C9, amended.  Let [end > start], [pattern_blocks >= 1], and let no
    64-bit arithmetic wrap around: [start + n * pattern_blocks < 2^64] for
    [n = ceil((end - start + 1) / pattern_blocks)] (true whenever
    [end + pattern_blocks < 2^64]) and
    [BlockSize * pattern_blocks < 2^64].  If the device accepts each write
    of the run, then, given fuel for [n] passes and the exit test,
    [fill_with] returns EFI_SUCCESS after exactly the [n] writes of
    [block_tiling]: write [k] starts at block [start + k * pattern_blocks]
    and its byte count is [BlockSize] times its block count; the block
    count is [pattern_blocks] for every write but the last, and for the
    last it is the number of blocks that remain, so that the last write
    ends on block [end] and none reaches past it. *)
Theorem fill_with_tiles bio start end_ pattern pattern_blocks fuel calls :
  0 <= start -> start < end_ -> 1 <= pattern_blocks ->
  start + chunks_needed start end_ pattern_blocks * pattern_blocks < 2 ^ 64 ->
  0 <= BlockSize bio -> BlockSize bio * pattern_blocks < 2 ^ 64 ->
  all_written bio calls
    (block_tiling bio pattern start end_ pattern_blocks) = true ->
  (Z.to_nat (chunks_needed start end_ pattern_blocks) < fuel)%nat ->
  let n := chunks_needed start end_ pattern_blocks in
  fill_with fuel bio start end_ pattern pattern_blocks calls
  = (Some EFI_SUCCESS,
     calls ++ block_tiling bio pattern start end_ pattern_blocks)
  /\ Z.of_nat
       (List.length (block_tiling bio pattern start end_ pattern_blocks))
     = n
  /\ (forall k, 0 <= k < n - 1 ->
                chunk_size start end_ pattern_blocks k = pattern_blocks)
  /\ (chunk_size start end_ pattern_blocks (n - 1)
      = end_ - chunk_lba start pattern_blocks (n - 1) + 1
      /\ 1 <= chunk_size start end_ pattern_blocks (n - 1) <= pattern_blocks)
  /\ (forall k, 0 <= k < n ->
                start <= chunk_lba start pattern_blocks k
                /\ chunk_lba start pattern_blocks k
                   + chunk_size start end_ pattern_blocks k - 1 <= end_).
Proof.
  intros Hstart Hrange Hblocks Hwrap Hbs Hfit Hok Hfuel n.
  pose proof (chunks_needed_pos start end_ pattern_blocks Hrange Hblocks)
    as Hpos.
  pose proof (tiling_block_tiling bio pattern start end_ pattern_blocks
                Hblocks Hbs Hfit) as Hexact.
  split; [|split; [|split; [|split]]].
  - unfold fill_with.
    destruct (Z.leb_spec end_ start) as [Hle|_]; [lia|].
    rewrite <- Hexact in Hok |- *.
    pose proof (fill_loop_tiles_accepted bio start end_ pattern
                  pattern_blocks Hstart Hrange Hblocks Hwrap
                  (Z.to_nat (chunks_needed start end_ pattern_blocks))
                  0%nat fuel calls eq_refl Hfuel Hok) as H.
    unfold chunk_lba in H. simpl Z.of_nat in H.
    rewrite Z.mul_0_l, Z.add_0_r in H. exact H.
  - unfold block_tiling. rewrite length_map, length_seq. subst n. lia.
  - intros k Hk. now apply chunk_size_full.
  - apply (chunk_size_last start end_ pattern_blocks Hblocks).
  - intros k Hk. apply chunk_within; lia.
Qed.

Lemma fill_with_tiles_witness :
  fill_with 3 Sample.disk 10 13 0 2 []
  = (Some EFI_SUCCESS,
     [{| w_media := 7; w_lba := 10; w_bytes := 512 * 2; w_buffer := 0 |};
      {| w_media := 7; w_lba := 12; w_bytes := 512 * 2; w_buffer := 0 |}])
  /\ Z.of_nat (List.length (block_tiling Sample.disk 0 10 13 2)) = 2
  /\ chunk_size 10 13 2 0 = 2
  /\ chunk_size 10 13 2 1 = 13 - 12 + 1.
Proof.
  assert (H0 : 0 <= 10) by lia.
  assert (H1 : 10 < 13) by lia.
  assert (H2 : 1 <= 2) by lia.
  assert (H3 : 10 + chunks_needed 10 13 2 * 2 < 2 ^ 64)
    by (vm_compute; reflexivity).
  assert (H4 : 0 <= BlockSize Sample.disk) by (vm_compute; discriminate).
  assert (H5 : BlockSize Sample.disk * 2 < 2 ^ 64)
    by (vm_compute; reflexivity).
  assert (H6 : all_written Sample.disk []
                 (block_tiling Sample.disk 0 10 13 2) = true)
    by (vm_compute; reflexivity).
  assert (H7 : (Z.to_nat (chunks_needed 10 13 2) < 3)%nat)
    by (vm_compute; lia).
  destruct (fill_with_tiles Sample.disk 10 13 0 2 3 [] H0 H1 H2 H3 H4 H5
              H6 H7) as (Hrun & Hlen & Hfull & Hlast & _).
  split; [exact Hrun|].
  split; [exact Hlen|].
  split; [apply Hfull; vm_compute; split; [discriminate | reflexivity]|].
  exact (proj1 Hlast).
Defined.

(** ** C10: termination of fill_with *)

(** While the block arithmetic cannot wrap, [lba] grows on every pass and
    the loop is left after at most [end - lba + 1] passes, on any device. *)
Lemma fill_loop_terminates bio end_ pattern pattern_blocks :
  1 <= pattern_blocks -> end_ + pattern_blocks < 2 ^ 64 ->
  forall fuel lba calls,
    0 <= lba ->
    Z.max 0 (end_ - lba + 1) < Z.of_nat fuel ->
    exists status,
      fst (fill_loop fuel bio end_ pattern pattern_blocks lba calls)
      = Some status.
Proof.
  intros Hblocks Hfit.
  induction fuel as [|fuel IH]; intros lba calls Hlba Hfuel; [lia|].
  cbn [fill_loop].
  destruct (Z.leb_spec lba end_) as [Hle|Hgt]; [|eexists; reflexivity].
  destruct (EFI_ERROR _); [eexists; reflexivity|].
  rewrite (wrap64_small (lba + pattern_blocks)) by lia.
  apply IH; lia.
Qed.

(** With [pattern_blocks = 0] the loop is entered again at the same [lba]
    for as long as the writes succeed. *)
Lemma fill_loop_stuck bio end_ pattern lba :
  0 <= lba <= end_ -> end_ < 2 ^ 64 -> writes_succeed bio ->
  forall fuel calls,
    fst (fill_loop fuel bio end_ pattern 0 lba calls) = None.
Proof.
  intros Hlba Hend Hok.
  induction fuel as [|fuel IH]; intros calls; [reflexivity|].
  cbn [fill_loop].
  destruct (Z.leb_spec lba end_) as [_|Hgt]; [|lia].
  rewrite Hok, Z.add_0_r, (wrap64_small lba) by lia.
  apply IH.
Qed.

(** With [end = 2^64 - 1] no 64-bit [lba] exceeds [end]. *)
Lemma fill_loop_top_never_leaves bio pattern pattern_blocks :
  writes_succeed bio ->
  forall fuel lba calls,
    0 <= lba < 2 ^ 64 ->
    fst (fill_loop fuel bio (2 ^ 64 - 1) pattern pattern_blocks lba calls)
    = None.
Proof.
  intros Hok.
  induction fuel as [|fuel IH]; intros lba calls Hlba; [reflexivity|].
  cbn [fill_loop].
  destruct (Z.leb_spec lba (2 ^ 64 - 1)) as [_|Hgt]; [|lia].
  rewrite Hok. apply IH. unfold wrap64. apply Z.mod_pos_bound. lia.
Qed.

(** C10 as stated fails: with [pattern_blocks = 1], filling blocks
    0 .. 2^64-1 of a device that accepts every write never returns,
    whatever the fuel; [lba] wraps to 0 instead of exceeding [end]. *)
Lemma fill_with_full_range_never_returns :
  1 <= 1
  /\ writes_succeed Sample.disk
  /\ ~ (exists fuel status,
          fst (fill_with fuel Sample.disk 0 (2 ^ 64 - 1) 0 1 [])
          = Some status).
Proof.
  split; [lia|]. split; [exact disk_writes_succeed|].
  intros (fuel & status & H).
  unfold fill_with in H.
  destruct (Z.leb_spec (2 ^ 64 - 1) 0) as [Hle|_]; [lia|].
  rewrite (fill_loop_top_never_leaves Sample.disk 0 1 disk_writes_succeed)
    in H by lia.
  discriminate.
Qed.

(** C10, amended.  For [pattern_blocks >= 1] and
    [end + pattern_blocks < 2^64] (no 64-bit wrap-around), [fill_with]
    returns on every device: [lba] grows by [pattern_blocks] on each pass
    until it exceeds [end], unless a write fails first.  For
    [pattern_blocks = 0] and [end > start], [lba] never advances and
    [fill_with] does not return as long as every write succeeds. *)
Theorem fill_with_termination bio start end_ pattern pattern_blocks calls :
  (1 <= pattern_blocks -> 0 <= start -> end_ + pattern_blocks < 2 ^ 64 ->
   exists fuel status,
     fst (fill_with fuel bio start end_ pattern pattern_blocks calls)
     = Some status)
  /\ (pattern_blocks = 0 -> 0 <= start -> start < end_ -> end_ < 2 ^ 64 ->
      writes_succeed bio ->
      forall fuel,
        fst (fill_with fuel bio start end_ pattern pattern_blocks calls)
        = None).
Proof.
  split.
  - intros Hblocks Hstart Hfit.
    exists (S (Z.to_nat (end_ - start + 1))).
    unfold fill_with.
    destruct (Z.leb_spec end_ start) as [_|Hlt]; [eexists; reflexivity|].
    apply fill_loop_terminates; lia.
  - intros -> Hstart Hrange Hend Hok fuel.
    unfold fill_with.
    destruct (Z.leb_spec end_ start) as [Hle|_]; [lia|].
    apply fill_loop_stuck; auto; lia.
Qed.

Lemma fill_with_termination_witness :
  (exists fuel status,
     fst (fill_with fuel Sample.disk 10 13 0 2 []) = Some status)
  /\ (forall fuel, fst (fill_with fuel Sample.disk 10 13 0 0 []) = None).
Proof.
  split.
  - apply (proj1 (fill_with_termination Sample.disk 10 13 0 2 []));
      [lia | lia | vm_compute; reflexivity].
  - apply (proj2 (fill_with_termination Sample.disk 10 13 0 0 []));
      [reflexivity | lia | lia | vm_compute; reflexivity
      | exact disk_writes_succeed].
Defined.

(** * Further properties of the code *)

(** ** The registry lookup, for any filter *)

Lemma storage_type_eqb_eq a b : storage_type_eqb a b = true <-> a = b.
Proof.
  unfold storage_type_eqb. rewrite Z.eqb_eq.
  split; [apply storage_type_ord_inj | now intros ->].
Qed.

Lemma filter_matches_test filter st :
  storage_type_eqb filter st || storage_type_eqb filter STORAGE_ALL = true
  <-> filter_matches filter st.
Proof.
  unfold filter_matches. rewrite orb_true_iff, !storage_type_eqb_eq. tauto.
Qed.

(** A successful lookup over the slots [sts] stops at the first slot that
    passes the filter, is registered and probes true. *)
Lemma identify_storage_from_some fw device_path filter : forall sts d t,
  identify_storage_from fw device_path filter sts = Some (d, t) ->
  exists before after,
    sts = before ++ t :: after
    /\ filter_matches filter t
    /\ supported_storage fw t = Some d
    /\ probe d device_path = true
    /\ forall t' d', In t' before -> filter_matches filter t' ->
                     supported_storage fw t' = Some d' ->
                     probe d' device_path = false.
Proof.
  induction sts as [|st rest IH]; intros d t; simpl; [discriminate|].
  destruct (storage_type_eqb filter st || storage_type_eqb filter STORAGE_ALL)
    eqn:Hf.
  - destruct (supported_storage fw st) as [d0|] eqn:Hd0.
    + destruct (probe d0 device_path) eqn:Hp0.
      * intros [= <- <-]. exists [], rest.
        repeat split; auto; [now apply filter_matches_test | intros ? ? []].
      * intros H. destruct (IH d t H) as (b & a & -> & Hm & Hd & Hp & Hb).
        exists (st :: b), a. repeat split; auto.
        intros t' d' [<-|Hin] Hm' Hd'; [congruence | eauto].
    + intros H. destruct (IH d t H) as (b & a & -> & Hm & Hd & Hp & Hb).
      exists (st :: b), a. repeat split; auto.
      intros t' d' [<-|Hin] Hm' Hd'; [congruence | eauto].
  - intros H. destruct (IH d t H) as (b & a & -> & Hm & Hd & Hp & Hb).
    exists (st :: b), a. repeat split; auto.
    intros t' d' [<-|Hin] Hm' Hd'; [|eauto].
    apply filter_matches_test in Hm'. congruence.
Qed.

Lemma identify_storage_from_none_iff fw device_path filter : forall sts,
  identify_storage_from fw device_path filter sts = None
  <-> forall t d, In t sts -> filter_matches filter t ->
                  supported_storage fw t = Some d ->
                  probe d device_path = false.
Proof.
  induction sts as [|st rest IH]; simpl.
  - split; [intros _ ? ? [] | reflexivity].
  - destruct (storage_type_eqb filter st
              || storage_type_eqb filter STORAGE_ALL) eqn:Hf.
    + apply filter_matches_test in Hf.
      destruct (supported_storage fw st) as [d0|] eqn:Hd0.
      * destruct (probe d0 device_path) eqn:Hp0.
        -- split; [discriminate|]. intros H.
           specialize (H st d0 (or_introl eq_refl) Hf Hd0). congruence.
        -- rewrite IH. split.
           ++ intros H t d [<-|Hin] Hm Hd; [congruence | eauto].
           ++ intros H t d Hin. apply H. now right.
      * rewrite IH. split.
        -- intros H t d [<-|Hin] Hm Hd; [congruence | eauto].
        -- intros H t d Hin. apply H. now right.
    + rewrite IH. split.
      * intros H t d [<-|Hin] Hm Hd; [|eauto].
        apply filter_matches_test in Hm. congruence.
      * intros H t d Hin. apply H. now right.
Qed.

(** The slots are visited in the order of the enumeration. *)
Lemma storage_slots_before before t after t' :
  storage_slots = before ++ t :: after ->
  In t' storage_slots ->
  storage_type_ord t' < storage_type_ord t ->
  In t' before.
Proof.
  unfold storage_slots. intros Heq Hin Hlt.
  destruct before as [|a [|b [|c [|e l]]]]; simpl in Heq.
  - injection Heq as <- _.
    destruct Hin as [<-|[<-|[<-|[<-|[]]]]]; simpl in Hlt; lia.
  - injection Heq as <- <- _.
    destruct Hin as [<-|[<-|[<-|[<-|[]]]]]; simpl in Hlt; try lia.
    now left.
  - injection Heq as <- <- <- _.
    destruct Hin as [<-|[<-|[<-|[<-|[]]]]]; simpl in Hlt; try lia;
      simpl; auto.
  - injection Heq as <- <- <- <- _.
    destruct Hin as [<-|[<-|[<-|[<-|[]]]]]; simpl in Hlt; try lia;
      simpl; auto.
  - apply (f_equal (@List.length _)) in Heq. simpl in Heq.
    rewrite length_app in Heq. simpl in Heq. lia.
Qed.

(** X1.  [identify_storage] either fails with EFI_UNSUPPORTED and writes
    no out-parameter, which happens exactly when no slot that passes the
    filter holds a descriptor probing true on the path; or it succeeds
    with a descriptor [d] and a type [t] such that [t] is one of the four
    technologies (never STORAGE_ALL), passes the filter (so a filter other
    than STORAGE_ALL is returned itself), [d] is the descriptor registered
    for [t] and probes true, and every registered descriptor of higher
    priority that passes the filter probes false. *)
Theorem identify_storage_characterised fw device_path filter :
  (identify_storage fw device_path filter = (EFI_UNSUPPORTED, None)
   /\ forall t d, In t storage_slots -> filter_matches filter t ->
                  supported_storage fw t = Some d ->
                  probe d device_path = false)
  \/ (exists d t,
        identify_storage fw device_path filter = (EFI_SUCCESS, Some (d, t))
        /\ In t storage_slots /\ t <> STORAGE_ALL
        /\ filter_matches filter t
        /\ supported_storage fw t = Some d
        /\ probe d device_path = true
        /\ forall t' d', In t' storage_slots ->
                         storage_type_ord t' < storage_type_ord t ->
                         filter_matches filter t' ->
                         supported_storage fw t' = Some d' ->
                         probe d' device_path = false).
Proof.
  unfold identify_storage.
  destruct (identify_storage_from fw device_path filter storage_slots)
    as [[d t]|] eqn:H.
  - right. exists d, t.
    destruct (identify_storage_from_some _ _ _ _ _ _ H)
      as (before & after & Heq & Hm & Hd & Hp & Hb).
    assert (Hin : In t storage_slots)
      by (rewrite Heq; apply in_or_app; right; now left).
    repeat split; auto.
    + intros ->. unfold storage_slots in Hin. simpl in Hin.
      destruct Hin as [?|[?|[?|[?|[]]]]]; discriminate.
    + intros t' d' Hin' Hlt Hm' Hd'.
      apply (Hb t' d'); auto.
      eapply storage_slots_before; eassumption.
  - left. split; [reflexivity|].
    now apply identify_storage_from_none_iff.
Qed.

(** ** What a successful scan has selected *)

Lemma recognise_inv fw filter h pci d t :
  recognise fw filter h = Some (pci, d, t) ->
  exists device_path,
    DevicePathFromHandle fw h = Some device_path
    /\ get_pci_device_path fw device_path = Some pci
    /\ identify_storage fw device_path filter = (EFI_SUCCESS, Some (d, t)).
Proof.
  unfold recognise.
  destruct (DevicePathFromHandle fw h) as [dp|]; [|discriminate].
  destruct (get_pci_device_path fw dp) as [pci'|] eqn:Hpci; [|discriminate].
  destruct (identify_storage_cases fw dp filter)
    as [(d' & t' & Hid)| Hid]; rewrite Hid; [|discriminate].
  simpl. intros [= <- <- <-]. exists dp. auto.
Qed.

(** The candidate held during a scan was read off a handle of the list
    being scanned. *)
Lemma scan_handles_candidate fw filter all : forall handles s,
  incl handles all ->
  (cur_storage s = None
   \/ exists h d, In h all
        /\ recognise fw filter h = Some (boot_device s, d, boot_device_type s)
        /\ cur_storage s = Some d) ->
  let s' := scan_state (scan_handles fw filter s handles) in
  cur_storage s' = None
  \/ exists h d, In h all
       /\ recognise fw filter h = Some (boot_device s', d, boot_device_type s')
       /\ cur_storage s' = Some d.
Proof.
  induction handles as [|h hs IH]; intros s Hincl Hs; simpl; [exact Hs|].
  assert (Hin : In h all) by (apply Hincl; now left).
  assert (Hincl' : incl hs all) by (intros x Hx; apply Hincl; now right).
  rewrite scan_handle_recognise.
  destruct (recognise fw filter h) as [[[pci d] t]|] eqn:Hr; [|now apply IH].
  destruct (same_address (boot_device s) pci); [now apply IH|].
  destruct (_ || _).
  - apply IH; [exact Hincl'|]. right. exists h, d. simpl. auto.
  - destruct (storage_type_eqb _ _); [now left | now apply IH].
Qed.

(** X2.  When [identify_boot_device] does not return an error, it returns
    EFI_SUCCESS and the cache describes one handle of the enumeration it
    requested: [boot_device] is the PCI node of that handle's device path,
    [boot_device_type] is a type that passes the filter, and [cur_storage]
    is the descriptor registered for that type, which probes true on the
    path and is what [identify_storage] reports for it. *)
Theorem identify_boot_device_success_sound fw filter s :
  EFI_ERROR (fst (identify_boot_device fw filter s)) = false ->
  fst (identify_boot_device fw filter s) = EFI_SUCCESS
  /\ exists h device_path d,
       In h (snd (LocateHandleBuffer fw (locate_calls s)))
       /\ DevicePathFromHandle fw h = Some device_path
       /\ get_pci_device_path fw device_path
          = Some (boot_device (snd (identify_boot_device fw filter s)))
       /\ identify_storage fw device_path filter
          = (EFI_SUCCESS,
             Some (d, boot_device_type
                        (snd (identify_boot_device fw filter s))))
       /\ cur_storage (snd (identify_boot_device fw filter s)) = Some d
       /\ supported_storage fw
            (boot_device_type (snd (identify_boot_device fw filter s)))
          = Some d
       /\ probe d device_path = true
       /\ filter_matches filter
            (boot_device_type (snd (identify_boot_device fw filter s))).
Proof.
  unfold identify_boot_device. simpl.
  destruct (LocateHandleBuffer fw (locate_calls s)) as [ret handles]. simpl.
  destruct (EFI_ERROR ret) eqn:Hret; simpl; [congruence|].
  pose proof (scan_handles_candidate fw filter handles handles
                (clear_header_type (count_locate (upd_cur_storage None s)))
                (incl_refl _) (or_introl eq_refl)) as H.
  simpl in H.
  destruct (scan_handles _ _ _ _) as [s3|s3]; simpl in *; [|discriminate].
  destruct (cur_storage s3) as [d0|] eqn:Hc; simpl; [|discriminate].
  intros _. split; [reflexivity|].
  destruct H as [H|(h & d & Hin & Hr & Hd)]; [discriminate|].
  destruct (recognise_inv _ _ _ _ _ _ Hr) as (dp & Hdp & Hpci & Hid).
  exists h, dp, d. rewrite Hc. repeat split; auto.
  - unfold identify_storage in Hid.
    destruct (identify_storage_from fw dp filter storage_slots)
      as [r|] eqn:Hfrom; [|discriminate].
    injection Hid as ->.
    now destruct (identify_storage_from_some _ _ _ _ _ _ Hfrom)
      as (_ & _ & _ & _ & ? & _).
  - unfold identify_storage in Hid.
    destruct (identify_storage_from fw dp filter storage_slots)
      as [r|] eqn:Hfrom; [|discriminate].
    injection Hid as ->.
    now destruct (identify_storage_from_some _ _ _ _ _ _ Hfrom)
      as (_ & _ & _ & _ & _ & ? & _).
  - unfold identify_storage in Hid.
    destruct (identify_storage_from fw dp filter storage_slots)
      as [r|] eqn:Hfrom; [|discriminate].
    injection Hid as ->.
    now destruct (identify_storage_from_some _ _ _ _ _ _ Hfrom)
      as (_ & _ & _ & ? & _).
Qed.

Lemma identify_boot_device_success_sound_witness :
  fst (identify_boot_device Sample.ufs_then_emmc STORAGE_ALL initial_state)
  = EFI_SUCCESS
  /\ exists h device_path d,
       In h (snd (LocateHandleBuffer Sample.ufs_then_emmc 0%nat))
       /\ DevicePathFromHandle Sample.ufs_then_emmc h = Some device_path
       /\ get_pci_device_path Sample.ufs_then_emmc device_path
          = Some (boot_device
                    (snd (identify_boot_device Sample.ufs_then_emmc
                            STORAGE_ALL initial_state)))
       /\ identify_storage Sample.ufs_then_emmc device_path STORAGE_ALL
          = (EFI_SUCCESS,
             Some (d, boot_device_type
                        (snd (identify_boot_device Sample.ufs_then_emmc
                                STORAGE_ALL initial_state))))
       /\ cur_storage
            (snd (identify_boot_device Sample.ufs_then_emmc STORAGE_ALL
                    initial_state)) = Some d
       /\ supported_storage Sample.ufs_then_emmc
            (boot_device_type
               (snd (identify_boot_device Sample.ufs_then_emmc STORAGE_ALL
                       initial_state))) = Some d
       /\ probe d device_path = true
       /\ filter_matches STORAGE_ALL
            (boot_device_type
               (snd (identify_boot_device Sample.ufs_then_emmc STORAGE_ALL
                       initial_state))).
Proof.
  apply (identify_boot_device_success_sound Sample.ufs_then_emmc STORAGE_ALL
           initial_state).
  reflexivity.
Defined.

(** ** A scan that recognises nothing *)

Lemma scan_handles_unrecognised fw filter : forall handles s,
  (forall h, In h handles -> recognise fw filter h = None) ->
  scan_handles fw filter s handles = Continue s.
Proof.
  induction handles as [|h hs IH]; intros s H; simpl; [reflexivity|].
  rewrite scan_handle_recognise, (H h (or_introl eq_refl)).
  apply IH. intros h' Hin. apply H. now right.
Qed.

(** X3.  When the enumeration succeeds but none of its handles is
    recognised (no device path, no PCI node, or no descriptor that passes
    the filter probes true), in particular when it is empty,
    [identify_boot_device] returns EFI_UNSUPPORTED; the cache then holds
    no descriptor and [Header.Type = 0], while [Function], [Device],
    [boot_device_type] and [initialized] are as before the call. *)
Theorem identify_boot_device_nothing_recognised fw filter s ret handles :
  LocateHandleBuffer fw (locate_calls s) = (ret, handles) ->
  EFI_ERROR ret = false ->
  (forall h, In h handles -> recognise fw filter h = None) ->
  identify_boot_device fw filter s
  = (EFI_UNSUPPORTED,
     {| cur_storage := None;
        boot_device :=
          {| Header_Type := 0;
             Header_SubType := Header_SubType (boot_device s);
             Function := Function (boot_device s);
             Device := Device (boot_device s) |};
        boot_device_type := boot_device_type s;
        initialized := initialized s;
        locate_calls := S (locate_calls s) |}).
Proof.
  intros Henum Hret Hnone.
  unfold identify_boot_device. simpl. rewrite Henum, Hret.
  now rewrite scan_handles_unrecognised.
Qed.

Lemma identify_boot_device_nothing_recognised_witness :
  identify_boot_device Sample.no_storage STORAGE_UFS
    (snd (identify_boot_device Sample.one_emmc STORAGE_ALL initial_state))
  = (EFI_UNSUPPORTED,
     {| cur_storage := None;
        boot_device := {| Header_Type := 0; Header_SubType := 1;
                          Function := 0; Device := 28 |};
        boot_device_type := STORAGE_EMMC;
        initialized := false;
        locate_calls := 2 |}).
Proof.
  apply (identify_boot_device_nothing_recognised Sample.no_storage
           STORAGE_UFS
           (snd (identify_boot_device Sample.one_emmc STORAGE_ALL
                   initial_state))
           EFI_SUCCESS [1]).
  - reflexivity.
  - reflexivity.
  - intros h [<-|[]]. reflexivity.
Defined.

(** ** Priority and several handles of one controller *)

Lemma partitions_typed : pci_nodes_typed Sample.partitions.
Proof. intros p pci. simpl. intros [= <-]. simpl. discriminate. Qed.

(** X4.  Let the enumeration succeed and list, in any order, handles of a
    controller recognised as [T1] (one or several handles at the same bus
    address) and handles recognised as technologies of lower priority at
    other addresses, no technology on two addresses before the first [T1]
    handle and nothing of higher priority anywhere.  If the address left
    in the cache by earlier calls is not that of the [T1] controller,
    [identify_boot_device] returns EFI_SUCCESS and commits the [T1]
    controller: the descriptor, the type and the PCI node of its first
    handle.  Further handles of the same controller are not an ambiguity. *)
Theorem identify_boot_device_commits_highest_priority fw filter T1 pci1 d1
    before h1 after s ret :
  pci_nodes_typed fw ->
  recognise fw filter h1 = Some (pci1, d1, T1) ->
  (forall h pci d t,
      In h before -> recognise fw filter h = Some (pci, d, t) ->
      storage_type_ord T1 < storage_type_ord t
      /\ same_address pci pci1 = false) ->
  (forall h h' pci pci' d d' t,
      In h before -> In h' before ->
      recognise fw filter h = Some (pci, d, t) ->
      recognise fw filter h' = Some (pci', d', t) ->
      same_address pci pci' = true) ->
  (forall h pci d t,
      In h after -> recognise fw filter h = Some (pci, d, t) ->
      storage_type_ord T1 <= storage_type_ord t
      /\ (t = T1 -> same_address pci pci1 = true)) ->
  LocateHandleBuffer fw (locate_calls s) = (ret, before ++ h1 :: after) ->
  EFI_ERROR ret = false ->
  same_address (boot_device s) pci1 = false ->
  fst (identify_boot_device fw filter s) = EFI_SUCCESS
  /\ cur_storage (snd (identify_boot_device fw filter s)) = Some d1
  /\ boot_device_type (snd (identify_boot_device fw filter s)) = T1
  /\ boot_device (snd (identify_boot_device fw filter s)) = pci1.
Proof.
  intros Htyped Hfirst Hlower Hsingle Hrest Henum Hret Hstale.
  eapply identify_boot_device_priority; eassumption.
Qed.

Lemma identify_boot_device_commits_highest_priority_witness :
  fst (identify_boot_device Sample.partitions STORAGE_ALL initial_state)
  = EFI_SUCCESS
  /\ cur_storage
       (snd (identify_boot_device Sample.partitions STORAGE_ALL
               initial_state))
     = Some (Sample.descriptor "eMMC" [101; 104])
  /\ boot_device_type
       (snd (identify_boot_device Sample.partitions STORAGE_ALL
               initial_state)) = STORAGE_EMMC
  /\ boot_device
       (snd (identify_boot_device Sample.partitions STORAGE_ALL
               initial_state))
     = {| Header_Type := 1; Header_SubType := 1;
          Function := 0; Device := 28 |}.
Proof.
  apply (identify_boot_device_commits_highest_priority Sample.partitions
           STORAGE_ALL STORAGE_EMMC
           {| Header_Type := 1; Header_SubType := 1;
              Function := 0; Device := 28 |}
           (Sample.descriptor "eMMC" [101; 104])
           [2] 1 [4] initial_state EFI_SUCCESS partitions_typed).
  - reflexivity.
  - intros h pci d t [<-|[]] Hr. vm_compute in Hr.
    injection Hr as <- _ <-. split; reflexivity.
  - intros h h' pci pci' d d' t [<-|[]] [<-|[]] Hr Hr'.
    rewrite Hr in Hr'. injection Hr' as <- _. apply same_address_refl.
  - intros h pci d t [<-|[]] Hr. vm_compute in Hr.
    injection Hr as <- _ <-. split; [simpl; lia | reflexivity].
  - reflexivity.
  - reflexivity.
  - reflexivity.
Defined.

(** ** The cache invariant over sequences of calls *)

(** X5.  On a platform whose enumeration requests never fail, the cache
    reached from the start-up state by any sequence of exposed calls
    ([identify_boot_device], [get_boot_device], [storage_set_boot_device],
    [storage_check_logical_unit], [storage_erase_blocks], with any
    arguments) holds a descriptor exactly when it holds an address
    ([cur_storage != NULL] iff [boot_device.Header.Type != 0]). *)
Theorem cache_coherent_when_enumeration_works fw cs :
  pci_nodes_typed fw ->
  (forall n, EFI_ERROR (fst (LocateHandleBuffer fw n)) = false) ->
  coherent (run fw cs initial_state).
Proof.
  intros Htyped Henum.
  assert (H : forall cs s, coherent s -> coherent (run fw cs s)).
  { clear cs. induction cs as [|c rest IH]; intros s Hs; simpl; [exact Hs|].
    apply IH. apply run_call_coherent; auto. }
  apply H. reflexivity.
Qed.

Lemma cache_coherent_when_enumeration_works_witness :
  coherent
    (run Sample.emmc_ufs_ufs
       [Call_get_boot_device;
        Call_identify_boot_device STORAGE_UFS;
        Call_set_boot_device 9;
        Call_check_logical_unit 101 0;
        Call_set_boot_device 3;
        Call_erase_blocks 3 Sample.disk 0 7]
       initial_state).
Proof.
  apply (cache_coherent_when_enumeration_works Sample.emmc_ufs_ufs).
  - apply platform_typed.
  - intros n. reflexivity.
Defined.

(** ** The [initialized] flag *)

Lemma check_logical_unit_state fw p u s :
  snd (storage_check_logical_unit fw p u s) = snd (valid_storage fw s).
Proof.
  unfold storage_check_logical_unit.
  destruct (valid_storage fw s) as [ok s']. simpl.
  destruct (negb ok); [reflexivity|].
  destruct (negb (is_boot_device fw s' p)); [reflexivity|].
  destruct (cur_storage s'); reflexivity.
Qed.

Lemma erase_blocks_state fw h bio a b s :
  snd (storage_erase_blocks fw h bio a b s) = snd (valid_storage fw s).
Proof.
  unfold storage_erase_blocks.
  destruct (valid_storage fw s) as [ok s']. simpl.
  destruct (negb ok); [reflexivity|].
  destruct (cur_storage s'); reflexivity.
Qed.

Lemma storage_set_boot_device_initialized fw device s :
  initialized (snd (storage_set_boot_device fw device s))
  = initialized s
    || negb (EFI_ERROR (fst (storage_set_boot_device fw device s))).
Proof.
  unfold storage_set_boot_device.
  destruct (DevicePathFromHandle fw device) as [dp|];
    [|simpl; now rewrite orb_false_r].
  destruct (get_pci_device_path fw dp) as [pci|];
    [|simpl; now rewrite orb_false_r].
  destruct (identify_storage_cases fw dp STORAGE_ALL)
    as [(d & t & ->)| ->]; simpl.
  - now rewrite orb_true_r.
  - now rewrite orb_false_r.
Qed.

(** X6.  How each exposed call treats [initialized]: the scan
    [identify_boot_device] and [get_boot_device] never change it;
    [storage_check_logical_unit] and [storage_erase_blocks] always leave
    it TRUE; [storage_set_boot_device] sets it exactly when it succeeds.
    Hence no sequence of calls ever takes the flag from TRUE back to
    FALSE. *)
Theorem initialized_protocol fw :
  (forall c s,
      initialized (run_call fw c s)
      = initialized s
        || match c with
           | Call_identify_boot_device _ => false
           | Call_get_boot_device => false
           | Call_set_boot_device device =>
               negb (EFI_ERROR (fst (storage_set_boot_device fw device s)))
           | Call_check_logical_unit _ _ => true
           | Call_erase_blocks _ _ _ _ => true
           end)
  /\ (forall cs s, initialized s = true -> initialized (run fw cs s) = true).
Proof.
  assert (Hstep : forall c s,
      initialized (run_call fw c s)
      = initialized s
        || match c with
           | Call_identify_boot_device _ => false
           | Call_get_boot_device => false
           | Call_set_boot_device device =>
               negb (EFI_ERROR (fst (storage_set_boot_device fw device s)))
           | Call_check_logical_unit _ _ => true
           | Call_erase_blocks _ _ _ _ => true
           end).
  { intros [filter| |device|p u|h bio a b] s; simpl.
    - rewrite orb_false_r. apply identify_boot_device_frame.
    - rewrite orb_false_r. apply get_boot_device_frame.
    - apply storage_set_boot_device_initialized.
    - rewrite check_logical_unit_state, valid_storage_initialized.
      now rewrite orb_true_r.
    - rewrite erase_blocks_state, valid_storage_initialized.
      now rewrite orb_true_r. }
  split; [exact Hstep|].
  induction cs as [|c rest IH]; intros s Hs; simpl; [exact Hs|].
  apply IH. rewrite Hstep, Hs. reflexivity.
Qed.

Lemma initialized_protocol_witness :
  initialized
    (run Sample.two_ufs
       [Call_identify_boot_device STORAGE_SATA; Call_get_boot_device;
        Call_set_boot_device 0]
       (run_call Sample.two_ufs (Call_check_logical_unit 102 0)
          initial_state)) = true.
Proof.
  apply (proj2 (initialized_protocol Sample.two_ufs)).
  reflexivity.
Defined.

(** ** Queries on an initialised cache *)

Lemma query_read_only fw c s :
  is_query c = true -> initialized s = true -> run_call fw c s = s.
Proof.
  intros Hq Hi.
  assert (Hv : snd (valid_storage fw s) = s)
    by (unfold valid_storage; now rewrite Hi).
  destruct c as [filter| |device|p u|h bio a b]; simpl in *;
    try discriminate.
  - now rewrite Hi.
  - now rewrite check_logical_unit_state.
  - now rewrite erase_blocks_state.
Qed.

(** X7.  Once [initialized] is TRUE, [get_boot_device],
    [storage_check_logical_unit] and [storage_erase_blocks] only read the
    cache: any sequence of them, with any arguments, leaves every field as
    it was and asks the firmware for no enumeration. *)
Theorem queries_read_only fw cs s :
  initialized s = true ->
  forallb is_query cs = true ->
  run fw cs s = s.
Proof.
  intros Hi. induction cs as [|c rest IH]; simpl; [reflexivity|].
  intros H. apply andb_prop in H as [Hc Hrest].
  rewrite (query_read_only fw c s Hc Hi). now apply IH.
Qed.

Lemma queries_read_only_witness :
  let s := snd (storage_set_boot_device Sample.emmc_and_ufs 2 initial_state) in
  run Sample.emmc_and_ufs
    [Call_get_boot_device; Call_check_logical_unit 101 0;
     Call_erase_blocks 1 Sample.disk 5 3; Call_get_boot_device] s
  = s.
Proof.
  intros s.
  apply (queries_read_only Sample.emmc_and_ufs _ s); reflexivity.
Defined.

(** ** valid_storage *)

Lemma valid_storage_cache_valid fw s :
  pci_nodes_typed fw ->
  fst (valid_storage fw s) = cache_valid (snd (valid_storage fw s)).
Proof.
  intros Htyped. unfold cache_valid.
  rewrite valid_storage_initialized. simpl.
  unfold valid_storage. destruct (initialized s) eqn:Hi; simpl.
  - reflexivity.
  - pose proof (identify_boot_device_descriptor fw STORAGE_ALL
                  (upd_initialized true s)) as Hd.
    pose proof (identify_boot_device_coherent fw STORAGE_ALL
                  (upd_initialized true s) Htyped) as Hc.
    unfold identify_boot_device in *. simpl in *.
    destruct (LocateHandleBuffer fw (locate_calls s)) as [ret handles].
    simpl in *.
    destruct (EFI_ERROR ret) eqn:Hret; simpl in *.
    + rewrite Hret. now rewrite andb_false_r.
    + specialize (Hc eq_refl). unfold coherent in Hc.
      destruct (scan_handles _ _ _ _) as [s3|s3]; simpl in *.
      * destruct (cur_storage s3); simpl in *;
          rewrite <- Hc, Hd; reflexivity.
      * rewrite <- Hc, Hd. reflexivity.
Qed.

(** X8.  [valid_storage] always leaves [initialized] TRUE, requests one
    enumeration if the flag was FALSE and none otherwise, and its answer
    is TRUE exactly when the cache it leaves is valid: initialised, with
    an address ([Header.Type != 0]) and a descriptor. *)
Theorem valid_storage_spec fw s :
  pci_nodes_typed fw ->
  fst (valid_storage fw s) = cache_valid (snd (valid_storage fw s))
  /\ initialized (snd (valid_storage fw s)) = true
  /\ locate_calls (snd (valid_storage fw s))
     = (if initialized s then locate_calls s else S (locate_calls s)).
Proof.
  intros Htyped.
  split; [now apply valid_storage_cache_valid|].
  split; [apply valid_storage_initialized|].
  unfold valid_storage. destruct (initialized s); simpl; [reflexivity|].
  pose proof (identify_boot_device_frame fw STORAGE_ALL
                (upd_initialized true s)) as [_ H].
  destruct (identify_boot_device _ _ _) as [ret s']. exact H.
Qed.

Lemma valid_storage_spec_witness :
  fst (valid_storage Sample.two_ufs initial_state)
  = cache_valid (snd (valid_storage Sample.two_ufs initial_state))
  /\ initialized (snd (valid_storage Sample.two_ufs initial_state)) = true
  /\ locate_calls (snd (valid_storage Sample.two_ufs initial_state))
     = 1%nat.
Proof.
  apply (valid_storage_spec Sample.two_ufs initial_state).
  apply platform_typed.
Defined.

(** ** storage_erase_blocks *)

(** X9.  [storage_erase_blocks] changes the cache only through the lazy
    scan of [valid_storage].  If the cache it leaves is not valid it
    returns EFI_UNSUPPORTED; otherwise it returns what the cached
    descriptor's [erase_blocks] answers for the very arguments it was
    given: it neither compares the handle with the boot device nor checks
    that [start <= end]. *)
Theorem storage_erase_blocks_spec fw handle bio start end_ s :
  pci_nodes_typed fw ->
  snd (storage_erase_blocks fw handle bio start end_ s)
  = snd (valid_storage fw s)
  /\ (cache_valid (snd (storage_erase_blocks fw handle bio start end_ s))
      = false ->
      fst (storage_erase_blocks fw handle bio start end_ s)
      = EFI_UNSUPPORTED)
  /\ (cache_valid (snd (storage_erase_blocks fw handle bio start end_ s))
      = true ->
      exists d,
        cur_storage (snd (storage_erase_blocks fw handle bio start end_ s))
        = Some d
        /\ fst (storage_erase_blocks fw handle bio start end_ s)
           = erase_blocks d handle bio start end_).
Proof.
  intros Htyped.
  split; [apply erase_blocks_state|].
  rewrite erase_blocks_state.
  pose proof (valid_storage_cache_valid fw s Htyped) as Hv.
  pose proof (valid_storage_descriptor fw s) as Hd.
  unfold storage_erase_blocks.
  destruct (valid_storage fw s) as [ok s']. simpl in *.
  split; intros Hc; rewrite Hc in Hv; subst ok; simpl; [reflexivity|].
  specialize (Hd eq_refl). unfold descriptor_set in Hd.
  destruct (cur_storage s') as [d|]; [|discriminate].
  exists d. split; reflexivity.
Qed.

Lemma storage_erase_blocks_spec_witness :
  fst (storage_erase_blocks Sample.two_ufs 2 Sample.disk 0 7 initial_state)
  = EFI_UNSUPPORTED
  /\ exists d,
       cur_storage
         (snd (storage_erase_blocks Sample.ufs_then_emmc 2 Sample.disk 7 0
                 initial_state)) = Some d
       /\ fst (storage_erase_blocks Sample.ufs_then_emmc 2 Sample.disk 7 0
                 initial_state)
          = erase_blocks d 2 Sample.disk 7 0.
Proof.
  split.
  - apply (proj1 (proj2
             (storage_erase_blocks_spec Sample.two_ufs 2 Sample.disk 0 7
                initial_state (platform_typed _ _ _ _ _)))).
    reflexivity.
  - apply (proj2 (proj2
             (storage_erase_blocks_spec Sample.ufs_then_emmc 2 Sample.disk
                7 0 initial_state (platform_typed _ _ _ _ _)))).
    reflexivity.
Defined.

(** ** The override followed by queries *)

(** X10.  After a successful [storage_set_boot_device] on a handle with
    device path [device_path] and PCI node [pci], [get_boot_device]
    returns that node, and [storage_check_logical_unit] on that path and
    [storage_erase_blocks] on any arguments answer what the selected
    descriptor answers; none of these queries changes the cache or
    enumerates devices. *)
Theorem set_boot_device_then_queries fw device device_path pci s :
  pci_nodes_typed fw ->
  DevicePathFromHandle fw device = Some device_path ->
  get_pci_device_path fw device_path = Some pci ->
  EFI_ERROR (fst (storage_set_boot_device fw device s)) = false ->
  let s1 := snd (storage_set_boot_device fw device s) in
  get_boot_device fw s1 = (Some pci, s1)
  /\ exists d,
       cur_storage s1 = Some d
       /\ (forall u,
             storage_check_logical_unit fw device_path u s1
             = (check_logical_unit d device_path u, s1))
       /\ (forall handle bio start end_,
             storage_erase_blocks fw handle bio start end_ s1
             = (erase_blocks d handle bio start end_, s1)).
Proof.
  intros Htyped Hdp Hpci.
  unfold storage_set_boot_device. rewrite Hdp, Hpci.
  destruct (identify_storage_cases fw device_path STORAGE_ALL)
    as [(d & t & ->)| ->]; simpl; [|discriminate].
  intros _.
  pose proof (Htyped _ _ Hpci) as Hty. apply Z.eqb_neq in Hty.
  split.
  - unfold get_boot_device. simpl. now rewrite Hty.
  - exists d. split; [reflexivity|]. split.
    + intros u. unfold storage_check_logical_unit, valid_storage,
        is_boot_device. simpl.
      now rewrite Hty, Hpci, !Z.eqb_refl.
    + intros handle bio start end_.
      unfold storage_erase_blocks, valid_storage. simpl.
      now rewrite Hty.
Qed.

Lemma set_boot_device_then_queries_witness :
  let s1 := snd (storage_set_boot_device Sample.emmc_and_ufs 2
                   initial_state) in
  get_boot_device Sample.emmc_and_ufs s1
  = (Some {| Header_Type := 1; Header_SubType := 1;
             Function := 0; Device := 29 |}, s1)
  /\ exists d,
       cur_storage s1 = Some d
       /\ (forall u,
             storage_check_logical_unit Sample.emmc_and_ufs 102 u s1
             = (check_logical_unit d 102 u, s1))
       /\ (forall handle bio start end_,
             storage_erase_blocks Sample.emmc_and_ufs handle bio start end_
               s1
             = (erase_blocks d handle bio start end_, s1)).
Proof.
  apply (set_boot_device_then_queries Sample.emmc_and_ufs 2 102
           {| Header_Type := 1; Header_SubType := 1;
              Function := 0; Device := 29 |}
           initial_state (platform_typed _ _ _ _ _));
    reflexivity.
Defined.

(** ** fill_with: write failures *)

Lemma all_written_app bio : forall l1 calls l2,
  all_written bio calls (l1 ++ l2)
  = all_written bio calls l1 && all_written bio (calls ++ l1) l2.
Proof.
  induction l1 as [|c rest IH]; intros calls l2; simpl.
  - now rewrite app_nil_r.
  - rewrite IH, <- app_assoc. simpl. now rewrite andb_assoc.
Qed.

Lemma fill_loop_outcome bio end_ pattern pattern_blocks :
  forall fuel lba calls,
  exists more,
    snd (fill_loop fuel bio end_ pattern pattern_blocks lba calls)
    = calls ++ more
    /\ Forall (fun c => w_media c = MediaId bio /\ w_buffer c = pattern
                        /\ w_lba c <= end_) more
    /\ match fst (fill_loop fuel bio end_ pattern pattern_blocks lba calls)
       with
       | None => all_written bio calls more = true
       | Some st =>
           (st = EFI_SUCCESS /\ all_written bio calls more = true)
           \/ (EFI_ERROR st = true
               /\ exists pre c,
                    more = pre ++ [c]
                    /\ all_written bio calls pre = true
                    /\ st = WriteBlocks bio (calls ++ pre) c)
       end.
Proof.
  induction fuel as [|fuel IH]; intros lba calls; cbn [fill_loop].
  - exists []. rewrite app_nil_r. repeat split; auto.
  - destruct (Z.leb_spec lba end_) as [Hle|Hgt].
    + set (c := {| w_media := MediaId bio; w_lba := lba;
                   w_bytes := _; w_buffer := pattern |}).
      destruct (EFI_ERROR (WriteBlocks bio calls c)) eqn:Hret.
      * exists [c]. simpl. repeat split; auto.
        right. split; [exact Hret|]. exists [], c.
        rewrite app_nil_r. auto.
      * destruct (IH (wrap64 (lba + pattern_blocks)) (calls ++ [c]))
          as (more & Hcalls & Hall & Hst).
        exists (c :: more). rewrite Hcalls, <- app_assoc. simpl.
        split; [reflexivity|]. split; [constructor; auto|].
        rewrite Hret. simpl.
        destruct (fst (fill_loop fuel bio end_ pattern pattern_blocks
                         (wrap64 (lba + pattern_blocks)) (calls ++ [c])))
          as [st|]; [|exact Hst].
        destruct Hst as [Hok|(Herr & pre & c' & -> & Hpre & Hst)];
          [now left|].
        right. split; [exact Herr|]. exists (c :: pre), c'.
        simpl. rewrite Hret. simpl.
        rewrite <- app_assoc in Hst. simpl in Hst. auto.
    + exists []. rewrite app_nil_r. simpl. repeat split; auto.
Qed.

(** X11.  Whatever the arguments and the device, [fill_with] only adds
    writes to the device's history, each with the device's [MediaId], the
    caller's pattern buffer and a start block not above [end].  It
    returns EFI_INVALID_PARAMETER without writing when [end <= start];
    it returns EFI_SUCCESS only if every write it issued succeeded; and
    any other status is the error of the last write it issued, all writes
    before that one having succeeded: the first failing write ends the
    fill and its status is passed on unchanged. *)
Theorem fill_with_outcome fuel bio start end_ pattern pattern_blocks calls :
  exists more,
    snd (fill_with fuel bio start end_ pattern pattern_blocks calls)
    = calls ++ more
    /\ Forall (fun c => w_media c = MediaId bio /\ w_buffer c = pattern
                        /\ w_lba c <= end_) more
    /\ match fst (fill_with fuel bio start end_ pattern pattern_blocks calls)
       with
       | None => start < end_ /\ all_written bio calls more = true
       | Some st =>
           (end_ <= start /\ st = EFI_INVALID_PARAMETER /\ more = [])
           \/ (start < end_ /\ st = EFI_SUCCESS
               /\ all_written bio calls more = true)
           \/ (start < end_ /\ EFI_ERROR st = true
               /\ exists pre c,
                    more = pre ++ [c]
                    /\ all_written bio calls pre = true
                    /\ st = WriteBlocks bio (calls ++ pre) c)
       end.
Proof.
  unfold fill_with.
  destruct (Z.leb_spec end_ start) as [Hle|Hlt].
  - exists []. simpl. rewrite app_nil_r. repeat split; auto.
  - destruct (fill_loop_outcome bio end_ pattern pattern_blocks fuel start
                calls) as (more & Hcalls & Hall & Hst).
    exists more. split; [exact Hcalls|]. split; [exact Hall|].
    destruct (fst (fill_loop fuel bio end_ pattern pattern_blocks start
                     calls)) as [st|]; [|auto].
    destruct Hst as [[Hs Hw]|Herr]; [right; left; auto|].
    right; right. destruct Herr as (He & pre & c & H). split; [exact Hlt|].
    split; [exact He|]. exists pre, c. exact H.
Qed.

(** ** fill_with: the bytes written *)

Lemma total_bytes_app l1 l2 :
  total_bytes (l1 ++ l2) = total_bytes l1 + total_bytes l2.
Proof.
  induction l1 as [|c rest IH]; simpl; [reflexivity|].
  unfold total_bytes in *. simpl. rewrite IH. lia.
Qed.

Lemma tiling_bytes bio pattern start end_ pattern_blocks :
  start < end_ -> 1 <= pattern_blocks ->
  0 <= BlockSize bio -> BlockSize bio * pattern_blocks < 2 ^ 64 ->
  forall m i,
    (i + m)%nat = Z.to_nat (chunks_needed start end_ pattern_blocks) ->
    total_bytes (map (chunk_call bio pattern start end_ pattern_blocks)
                   (seq i m))
    = match m with
      | O => 0
      | S _ => BlockSize bio
               * (end_ - chunk_lba start pattern_blocks (Z.of_nat i) + 1)
      end.
Proof.
  intros Hrange Hblocks Hbs Hfit.
  pose proof (chunks_needed_bounds start end_ pattern_blocks Hblocks) as Hn.
  pose proof (chunks_needed_pos start end_ pattern_blocks Hrange Hblocks)
    as Hpos.
  induction m as [|m IH]; intros i Him; [reflexivity|].
  cbn [seq map]. unfold total_bytes at 1. cbn [fold_right].
  fold (total_bytes (map (chunk_call bio pattern start end_ pattern_blocks)
                       (seq (S i) m))).
  rewrite IH by lia.
  unfold chunk_call at 1. cbn [w_bytes].
  destruct m as [|m].
  - assert (Hi : Z.of_nat i
                 = chunks_needed start end_ pattern_blocks - 1) by lia.
    rewrite Hi.
    destruct (chunk_size_last start end_ pattern_blocks Hblocks)
      as [Hsize Hb].
    rewrite wrap64_small by nia. rewrite Hsize. lia.
  - assert (Hi : 0 <= Z.of_nat i
                 < chunks_needed start end_ pattern_blocks - 1) by lia.
    rewrite (chunk_size_full start end_ pattern_blocks _ Hblocks Hi).
    rewrite wrap64_small by lia.
    unfold chunk_lba. nia.
Qed.

(** X12.  Under the conditions in which the writes tile the range
    ([end > start], [pattern_blocks >= 1], no 64-bit wrap-around, every
    write succeeding) and with a byte count per chunk that fits 64 bits,
    the byte counts of the writes [fill_with] issues add up to
    [BlockSize * (end - start + 1)]: every block of the inclusive range is
    paid for once, none twice. *)
Theorem fill_with_total_bytes bio start end_ pattern pattern_blocks fuel
    calls :
  0 <= start -> start < end_ -> 1 <= pattern_blocks ->
  start + chunks_needed start end_ pattern_blocks * pattern_blocks < 2 ^ 64 ->
  0 <= BlockSize bio -> BlockSize bio * pattern_blocks < 2 ^ 64 ->
  writes_succeed bio ->
  (Z.to_nat (chunks_needed start end_ pattern_blocks) < fuel)%nat ->
  fst (fill_with fuel bio start end_ pattern pattern_blocks calls)
  = Some EFI_SUCCESS
  /\ total_bytes
       (snd (fill_with fuel bio start end_ pattern pattern_blocks calls))
     = total_bytes calls + BlockSize bio * (end_ - start + 1).
Proof.
  intros Hstart Hrange Hblocks Hwrap Hbs Hfit Hok Hfuel.
  pose proof (chunks_needed_pos start end_ pattern_blocks Hrange Hblocks)
    as Hpos.
  unfold fill_with.
  destruct (Z.leb_spec end_ start) as [Hle|_]; [lia|].
  pose proof (fill_loop_tiles bio start end_ pattern pattern_blocks
                Hstart Hrange Hblocks Hwrap Hok
                (Z.to_nat (chunks_needed start end_ pattern_blocks))
                0%nat fuel calls eq_refl Hfuel) as H.
  unfold chunk_lba in H. simpl Z.of_nat in H.
  rewrite Z.mul_0_l, Z.add_0_r in H. rewrite H. simpl fst. simpl snd.
  split; [reflexivity|].
  rewrite total_bytes_app.
  rewrite (tiling_bytes bio pattern start end_ pattern_blocks
             Hrange Hblocks Hbs Hfit _ 0%nat eq_refl).
  destruct (Z.to_nat (chunks_needed start end_ pattern_blocks)) eqn:Hn;
    [lia|].
  unfold chunk_lba. simpl Z.of_nat. lia.
Qed.

Lemma fill_with_total_bytes_witness :
  fst (fill_with 4 Sample.disk 10 14 0 2 []) = Some EFI_SUCCESS
  /\ total_bytes (snd (fill_with 4 Sample.disk 10 14 0 2 []))
     = total_bytes [] + BlockSize Sample.disk * (14 - 10 + 1).
Proof.
  apply (fill_with_total_bytes Sample.disk 10 14 0 2 4 []).
  - lia.
  - lia.
  - lia.
  - vm_compute. reflexivity.
  - vm_compute. discriminate.
  - vm_compute. reflexivity.
  - exact disk_writes_succeed.
  - vm_compute. lia.
Defined.

(** ** fill_with: the progress reports *)

Lemma fill_loop_log_refines bio start end_ pattern pattern_blocks :
  forall fuel lba prev progress calls log,
    fst (fill_loop_log fuel bio start end_ pattern pattern_blocks lba prev
           progress calls log)
    = fill_loop fuel bio end_ pattern pattern_blocks lba calls.
Proof.
  induction fuel as [|fuel IH]; intros lba prev progress calls log;
    cbn [fill_loop_log fill_loop]; [reflexivity|].
  destruct (lba <=? end_); [|reflexivity].
  destruct (EFI_ERROR _); [reflexivity | apply IH].
Qed.

Lemma reported_app l1 l2 : reported (l1 ++ l2) = reported l1 ++ reported l2.
Proof.
  induction l1 as [|m rest IH]; simpl; [reflexivity|].
  destruct m; simpl; now rewrite IH.
Qed.

Lemma last_nonempty_default : forall (l : list Z) b d d',
  last (b :: l) d = last (b :: l) d'.
Proof.
  induction l as [|c rest IH]; intros b d d'; [reflexivity|].
  change (last (c :: rest) d = last (c :: rest) d'). apply IH.
Qed.

Lemma last_cons_default (a : Z) l d : last (a :: l) d = last l a.
Proof.
  destruct l as [|b rest]; [reflexivity|].
  change (last (b :: rest) d = last (b :: rest) a).
  apply last_nonempty_default.
Qed.

Lemma increasing_from_snoc v : forall l lo,
  increasing_from lo l -> last l lo < v -> increasing_from lo (l ++ [v]).
Proof.
  induction l as [|a rest IH]; intros lo Hinc Hlast.
  - simpl in *. auto.
  - destruct Hinc as [Hlo Hrest]. rewrite last_cons_default in Hlast.
    split; [exact Hlo|]. now apply IH.
Qed.

(** Without wrap-around [percent5] is the percentage rounded down to a
    multiple of 5. *)
Lemma percent5_exact x max :
  0 <= x <= max -> 0 < max -> max * 20 < 2 ^ 64 ->
  percent5 (wrap64 x) (wrap64 max) = x * 20 / max * 5
  /\ 0 <= x * 20 / max <= 20.
Proof.
  intros Hx Hmax Hfit.
  assert (Hq : 0 <= x * 20 / max <= 20).
  { split; [apply Z.div_pos; lia|].
    apply Z.div_le_upper_bound; lia. }
  split; [|exact Hq].
  unfold percent5.
  rewrite (wrap64_small x), (wrap64_small max) by lia.
  rewrite (wrap64_small (x * 20)) by lia.
  apply wrap64_small. lia.
Qed.

Lemma percent5_mono x y max :
  0 <= x <= y -> 0 < max -> x * 20 / max * 5 <= y * 20 / max * 5.
Proof.
  intros Hxy Hmax.
  assert (x * 20 / max <= y * 20 / max)
    by (apply Z.div_le_mono; lia).
  lia.
Qed.

Lemma fill_loop_log_reports bio start end_ pattern pattern_blocks :
  0 <= start -> start < end_ -> 1 <= pattern_blocks ->
  end_ + pattern_blocks < 2 ^ 64 ->
  (end_ - start) * 20 < 2 ^ 64 ->
  forall fuel lba prev progress calls log,
    start <= lba ->
    (exists x0, 0 <= x0 <= end_ - start /\ x0 <= lba - start
                /\ prev = x0 * 20 / (end_ - start) * 5) ->
    (lba <= end_ -> progress = (lba - start) * 20 / (end_ - start) * 5) ->
    last (reported log) 0 = prev ->
    increasing_from 0 (reported log) ->
    Forall (fun v => v <= 100 /\ v mod 5 = 0) (reported log) ->
    let r := fill_loop_log fuel bio start end_ pattern pattern_blocks lba
               prev progress calls log in
    increasing_from 0 (reported (snd r))
    /\ Forall (fun v => v <= 100 /\ v mod 5 = 0) (reported (snd r)).
Proof.
  intros Hstart Hrange Hblocks Hfit Hpct.
  induction fuel as [|fuel IH];
    intros lba prev progress calls log Hlba (x0 & Hx0 & Hx0l & Hprev)
      Hprog Hlast Hinc Hall; cbn [fill_loop_log]; [now split|].
  destruct (Z.leb_spec lba end_) as [Hle|Hgt]; [|now split].
  specialize (Hprog Hle).
  assert (Hq : 0 <= (lba - start) * 20 / (end_ - start) <= 20).
  { split; [apply Z.div_pos; lia|].
    apply Z.div_le_upper_bound; lia. }
  assert (Hmono : prev <= progress).
  { subst prev progress. apply percent5_mono; lia. }
  set (log1 := if progress =? prev then log
               else log ++ [Debug_completed progress]).
  assert (Hlog1 : last (reported log1) 0 = progress
                  /\ increasing_from 0 (reported log1)
                  /\ Forall (fun v => v <= 100 /\ v mod 5 = 0)
                       (reported log1)).
  { subst log1. destruct (Z.eqb_spec progress prev) as [Heq|Hne].
    - rewrite Heq. auto.
    - rewrite reported_app. simpl. split; [apply last_last|]. split.
      + apply increasing_from_snoc; [exact Hinc | lia].
      + apply Forall_app. split; [exact Hall|].
        constructor; [|constructor]. subst progress. split; [lia|].
        apply Z.mod_mul. lia. }
  destruct Hlog1 as (Hlast1 & Hinc1 & Hall1).
  destruct (EFI_ERROR _).
  - simpl. rewrite reported_app. simpl. rewrite app_nil_r. now split.
  - rewrite (wrap64_small (lba + pattern_blocks)) by lia.
    apply IH; auto; try lia.
    + exists (lba - start). repeat split; lia.
    + intros Hle'.
      apply (percent5_exact (lba + pattern_blocks - start) (end_ - start));
        lia.
Qed.

(** X13.  [fill_with] with its log issues the same writes and returns the
    same status as without it.  For [end > start], [pattern_blocks >= 1]
    and no 64-bit wrap-around ([end + pattern_blocks < 2^64],
    [(end - start) * 20 < 2^64]), on any device and however far the fill
    gets, the percentages it reports with "%d%% completed" are strictly
    increasing multiples of 5 between 5 and 100: a value is reported only
    when it has changed, and 0 is never reported. *)
Theorem fill_with_progress_reports fuel bio start end_ pattern
    pattern_blocks calls log :
  0 <= start -> start < end_ -> 1 <= pattern_blocks ->
  end_ + pattern_blocks < 2 ^ 64 ->
  (end_ - start) * 20 < 2 ^ 64 ->
  reported log = [] ->
  let r := fill_with_log fuel bio start end_ pattern pattern_blocks calls
             log in
  fst r = fill_with fuel bio start end_ pattern pattern_blocks calls
  /\ increasing_from 0 (reported (snd r))
  /\ Forall (fun v => v <= 100 /\ v mod 5 = 0) (reported (snd r)).
Proof.
  intros Hstart Hrange Hblocks Hfit Hpct Hlog.
  unfold fill_with_log, fill_with.
  destruct (Z.leb_spec end_ start) as [Hle|_]; [lia|].
  split; [apply fill_loop_log_refines|].
  apply fill_loop_log_reports; auto; try lia.
  - exists 0. split; [lia|]. split; [lia | reflexivity].
  - intros _. rewrite Z.sub_diag. reflexivity.
  - rewrite reported_app, Hlog. reflexivity.
  - rewrite reported_app, Hlog. exact I.
  - rewrite reported_app, Hlog. constructor.
Qed.

Lemma fill_with_progress_reports_witness :
  fst (fill_with_log 12 Sample.disk 0 40 0 4 [] [])
  = fill_with 12 Sample.disk 0 40 0 4 []
  /\ increasing_from 0
       (reported (snd (fill_with_log 12 Sample.disk 0 40 0 4 [] [])))
  /\ Forall (fun v => v <= 100 /\ v mod 5 = 0)
       (reported (snd (fill_with_log 12 Sample.disk 0 40 0 4 [] []))).
Proof.
  apply (fill_with_progress_reports 12 Sample.disk 0 40 0 4 [] []).
  - lia.
  - lia.
  - lia.
  - vm_compute. reflexivity.
  - vm_compute. reflexivity.
  - reflexivity.
Defined.

(** ** get_boot_device on a cache that was never initialised *)

(** X14.  Called with [initialized] FALSE on a platform that answers the
    enumeration request, [get_boot_device] runs the scan for STORAGE_ALL
    and returns NULL exactly when that scan fails; when the scan succeeds
    it returns the PCI node the scan committed.  The cache is left as the
    scan left it. *)
Theorem get_boot_device_lazy_scan fw s :
  pci_nodes_typed fw ->
  initialized s = false ->
  EFI_ERROR (fst (LocateHandleBuffer fw (locate_calls s))) = false ->
  get_boot_device fw s
  = (if EFI_ERROR (fst (identify_boot_device fw STORAGE_ALL s)) then None
     else Some (boot_device (snd (identify_boot_device fw STORAGE_ALL s))),
     snd (identify_boot_device fw STORAGE_ALL s)).
Proof.
  intros Htyped Hi Henum.
  unfold get_boot_device. rewrite Hi. simpl.
  pose proof (identify_boot_device_coherent fw STORAGE_ALL s Htyped Henum)
    as Hc.
  pose proof (identify_boot_device_descriptor fw STORAGE_ALL s) as Hd.
  unfold coherent, address_set in Hc. rewrite Hd in Hc.
  destruct (Header_Type
              (boot_device (snd (identify_boot_device fw STORAGE_ALL s)))
            =? 0);
    destruct (EFI_ERROR (fst (identify_boot_device fw STORAGE_ALL s)));
    simpl in Hc; try discriminate; reflexivity.
Qed.

Lemma get_boot_device_lazy_scan_witness :
  get_boot_device Sample.partitions initial_state
  = (Some {| Header_Type := 1; Header_SubType := 1;
             Function := 0; Device := 28 |},
     snd (identify_boot_device Sample.partitions STORAGE_ALL initial_state))
  /\ get_boot_device Sample.two_ufs initial_state
     = (None,
        snd (identify_boot_device Sample.two_ufs STORAGE_ALL initial_state)).
Proof.
  split.
  - apply (get_boot_device_lazy_scan Sample.partitions initial_state
             partitions_typed); reflexivity.
  - apply (get_boot_device_lazy_scan Sample.two_ufs initial_state
             (platform_typed _ _ _ _ _)); reflexivity.
Defined.
